(** * Hikaru-FDetector: the persisted-media lifecycle and the detection filter

    A shallow embedding of

    - [class MediaDatabase], the IndexedDB wrapper that the hook imports from
      [utils/indexedDb] (the durable media store),
    - [hooks/useMediaCapture.ts] (the capture lifecycle hook),
    - [FruitDetector.detectFruits] of [utils/fruitDetector.ts],

    followed by the properties of the specification that concern them.

    Conventions.  A JavaScript [number] that the code only ever uses as an
    integer (a [Date.now()] reading, a length) is a [Z]; strings are
    [string]; a [Blob] is its bytes.  A promise is represented by the way it
    settles ([Settled]); an [async] function is a program of type [Prog] whose
    [Await] nodes are its suspension points.  The browser (IndexedDB engine,
    object-URL registry, clock, console) is an explicit [World].  A state
    updater handed to React is a program that React calls: once, or more
    than once for one update, as a development build does under
    [<StrictMode>]. *)

From Stdlib Require Import ZArith QArith Lia Ascii String.
From stdpp Require Import gmap strings list sorting pretty.

Local Open Scope string_scope.
Local Open Scope list_scope.
Local Open Scope Z_scope.

(** ** Values thrown and promises settled *)

Inductive ErrorClass :=
  Error | TypeError | SyntaxError | RangeError | DOMException | FruitDetectionError.

(** What a [throw] or a rejection carries: an [Error] object of some class
    with its [message], or some value that is not an [Error]. *)
Inductive Thrown :=
| ThrownError (c : ErrorClass) (message : string)
| ThrownValue.

Inductive Settled (A : Type) :=
| Resolved (a : A)
| Rejected (e : Thrown).
Arguments Resolved {A} a.
Arguments Rejected {A} e.

Definition is_resolved {A} (o : Settled A) : bool :=
  match o with Resolved _ => true | Rejected _ => false end.

(** ** Data model ([types/media], [StoredMediaData]) *)

Inductive CameraMode := photo | video.

Definition CameraMode_str (t : CameraMode) : string :=
  match t with photo => "photo" | video => "video" end.

Definition Blob := list Byte.byte.

Module StoredMediaData.
Record t := mk {
  id : string;
  type : CameraMode;
  blob : Blob;
  timestamp : Z;
  filename : string
}.
End StoredMediaData.

Module CapturedMedia.
Record t := mk {
  id : string;
  type : CameraMode;
  url : string;
  blob : Blob;
  timestamp : Z;
  filename : string;
  indexedDbId : option string
}.

(** [{ ...media, indexedDbId }] *)
Definition with_indexedDbId (media : t) (indexedDbId : string) : t :=
  mk (id media) (type media) (url media) (blob media) (timestamp media)
     (filename media) (Some indexedDbId).
End CapturedMedia.

(** ** The IndexedDB engine, as far as [MediaDatabase] drives it

    Database ['CameraAppMedia'] version 1 has one object store, ['media'],
    created with [keyPath: 'id']: a record is stored under its own [id], and
    [put] replaces the record already stored under that key.  A request that
    fires [onerror] leaves the store as it was.  Which requests fail is the
    engine's business: the fields [openError] and [requestError] say it.
    [getAll] lists the records in ascending order of their keys; the keys are
    the [id]s, strings that the engine compares code unit by code unit (the
    [id]s the application makes are ASCII). *)

Inductive IDBRequest :=
| IDBPut (value : StoredMediaData.t)
| IDBGetAll
| IDBDelete (key : string)
| IDBClear.

Record IDBFactory := mkIDB {
  (** the object store ['media']; [None] as long as the database was never
      opened (no [onupgradeneeded] yet) *)
  objectStore : option (gmap string StoredMediaData.t);
  (** [indexedDB.open] fires [onerror] with this error *)
  openError : option Thrown;
  (** the request fires [onerror] with this error *)
  requestError : IDBRequest -> option Thrown
}.

Definition with_objectStore (f : IDBFactory) (s : gmap string StoredMediaData.t) : IDBFactory :=
  mkIDB (Some s) (openError f) (requestError f).

(** The effect of a request that succeeds, and its [result]. *)
Inductive IDBResult :=
| ResKey (key : string)
| ResAll (records : list StoredMediaData.t)
| ResUndefined.

(** The order of the keys, and the entries of the store in that order. *)
Definition keyOrder (a b : string * StoredMediaData.t) : Prop := String.le a.1 b.1.

#[global] Instance keyOrder_dec : RelDecision keyOrder :=
  fun a b => decide (String.le a.1 b.1).

Definition inKeyOrder (s : gmap string StoredMediaData.t)
  : list (string * StoredMediaData.t) :=
  merge_sort keyOrder (map_to_list s).

Definition IDB_apply (r : IDBRequest) (s : gmap string StoredMediaData.t)
  : IDBResult * gmap string StoredMediaData.t :=
  match r with
  | IDBPut value => (ResKey (StoredMediaData.id value), <[StoredMediaData.id value := value]> s)
  | IDBGetAll => (ResAll (snd <$> inKeyOrder s), s)
  | IDBDelete key => (ResUndefined, delete key s)
  | IDBClear => (ResUndefined, ∅)
  end.

(** ** [class MediaDatabase] *)

Module MediaDatabase.

(** [private db: IDBDatabase | null], next to the engine it talks to. *)
Record State := mkState {
  db : bool;                 (* [this.db !== null] *)
  indexedDB : IDBFactory
}.

(** A method of the class: it settles, and leaves a state. *)
Definition M (A : Type) : Type := State -> Settled A * State.

Definition ret {A} (a : A) : M A := fun s => (Resolved a, s).
Definition throw {A} (e : Thrown) : M A := fun s => (Rejected e, s).
Definition bind {A B} (m : M A) (k : A -> M B) : M B :=
  fun s => match m s with
           | (Resolved a, s') => k a s'
           | (Rejected e, s') => (Rejected e, s')
           end.

Declare Scope db_scope.
Delimit Scope db_scope with db.
Notation "'let*' x ':=' m 'in' k" := (bind m (fun x => k))
  (at level 10, x pattern, m at level 100, k at level 200) : db_scope.
Notation "m ';;' k" := (bind m (fun _ => k))
  (at level 100, k at level 200, right associativity) : db_scope.
Local Open Scope db_scope.

(** [init()]: open the database; on first open [onupgradeneeded] creates
    the object store unless it exists. *)
Definition init : M unit := fun s =>
  match openError (indexedDB s) with
  | Some e => (Rejected e, s)
  | None =>
      let store := default ∅ (objectStore (indexedDB s)) in
      (Resolved tt, mkState true (with_objectStore (indexedDB s) store))
  end.

Definition ensureDB : M unit :=
  let* opened := (fun s => (Resolved (db s), s)) in
  (if opened then ret tt else init) ;;
  let* opened := (fun s => (Resolved (db s), s)) in
  if opened then ret tt
  else throw (ThrownError Error "Failed to initialize IndexedDB").

(** [db.transaction([storeName], mode).objectStore(storeName).<request>]
    wrapped in a promise: [onsuccess] resolves, [onerror] rejects with
    [request.error]; a missing object store makes [transaction] throw. *)
Definition request (r : IDBRequest) : M IDBResult := fun s =>
  match objectStore (indexedDB s) with
  | None => (Rejected (ThrownError DOMException "NotFoundError"), s)
  | Some store =>
      match requestError (indexedDB s) r with
      | Some e => (Rejected e, s)
      | None =>
          let (res, store') := IDB_apply r store in
          (Resolved res, mkState (db s) (with_objectStore (indexedDB s) store'))
      end
  end.

Definition storeMedia (mediaData : StoredMediaData.t) : M string :=
  ensureDB ;;
  request (IDBPut mediaData) ;;
  ret (StoredMediaData.id mediaData).

Definition getAllMedia : M (list StoredMediaData.t) :=
  ensureDB ;;
  let* res := request IDBGetAll in
  ret (match res with ResAll media => media | _ => [] end).

Definition deleteMedia (id : string) : M unit :=
  ensureDB ;;
  request (IDBDelete id) ;;
  ret tt.

Definition clearAllMedia : M unit :=
  ensureDB ;;
  request IDBClear ;;
  ret tt.

Definition close : State -> State := fun s =>
  if db s then mkState false (indexedDB s) else s.

(** What the object store holds (nothing, as long as it does not exist). *)
Definition contents (s : State) : gmap string StoredMediaData.t :=
  default ∅ (objectStore (indexedDB s)).

(** The records of the object store, as [getAll] lists them. *)
Definition records (s : State) : list StoredMediaData.t :=
  snd <$> inKeyOrder (contents s).

(** The entries of the object store kept under key [id]. *)
Definition entries_with_key (id : string) (s : State) : list (string * StoredMediaData.t) :=
  filter (fun kv => kv.1 = id) (map_to_list (contents s)).

End MediaDatabase.

(** ** The hook's programs

    The calls the hook makes on the singleton [mediaDatabase]. *)

Inductive MediaDbCall :=
| StoreMedia (mediaData : StoredMediaData.t)
| GetAllMedia
| DeleteMedia (id : string)
| ClearAllMedia.

Definition Result (c : MediaDbCall) : Type :=
  match c with
  | StoreMedia _ => string
  | GetAllMedia => list StoredMediaData.t
  | DeleteMedia _ => unit
  | ClearAllMedia => unit
  end.

Definition perform (c : MediaDbCall) : MediaDatabase.M (Result c) :=
  match c with
  | StoreMedia mediaData => MediaDatabase.storeMedia mediaData
  | GetAllMedia => MediaDatabase.getAllMedia
  | DeleteMedia id => MediaDatabase.deleteMedia id
  | ClearAllMedia => MediaDatabase.clearAllMedia
  end.

(** The synchronous effects: React state cells, the object-URL registry,
    the clock, the random source, the console, and a promise that is started
    and left to itself ([p.catch(log)], never awaited). *)
Inductive SyncOp : Type -> Type :=
| ReadCapturedMedia : SyncOp (list CapturedMedia.t)
| WriteCapturedMedia (next : list CapturedMedia.t) : SyncOp unit
| SetIsLoading (b : bool) : SyncOp unit
| CreateObjectURL (b : Blob) : SyncOp (Settled string)
| RevokeObjectURL (url : string) : SyncOp unit
| DateNow : SyncOp Z
| RandomSuffix : SyncOp string
| ConsoleLog (line : string) : SyncOp unit
| ConsoleError (line : string) (e : Thrown) : SyncOp unit
| FireAndForget (c : MediaDbCall) (onRejected : string) : SyncOp unit.

(** An [async] function body.  [Await c k] calls [c] on [mediaDatabase] and
    suspends until the promise settles; [k] is the rest of the body. *)
Inductive Prog (R : Type) : Type :=
| Ret (r : R)
| Throw (e : Thrown)
| Sync {X : Type} (op : SyncOp X) (k : X -> Prog R)
| Await (c : MediaDbCall) (k : Settled (Result c) -> Prog R).
Arguments Ret {R} r.
Arguments Throw {R} e.
Arguments Sync {R X} op k.
Arguments Await {R} c k.

Fixpoint pbind {A B} (p : Prog A) (f : A -> Prog B) : Prog B :=
  match p with
  | Ret a => f a
  | Throw e => Throw e
  | Sync op k => Sync op (fun x => pbind (k x) f)
  | Await c k => Await c (fun o => pbind (k o) f)
  end.

(** [try { p } catch (error) { h error }] *)
Fixpoint tryCatch {A} (p : Prog A) (h : Thrown -> Prog A) : Prog A :=
  match p with
  | Ret a => Ret a
  | Throw e => h e
  | Sync op k => Sync op (fun x => tryCatch (k x) h)
  | Await c k => Await c (fun o => tryCatch (k o) h)
  end.

(** [try { p } finally { c }], for a [c] that completes normally or throws. *)
Fixpoint tryFinally {A} (p : Prog A) (c : Prog unit) : Prog A :=
  match p with
  | Ret a => pbind c (fun _ => Ret a)
  | Throw e => pbind c (fun _ => Throw e)
  | Sync op k => Sync op (fun x => tryFinally (k x) c)
  | Await ca k => Await ca (fun o => tryFinally (k o) c)
  end.

Declare Scope prog_scope.
Delimit Scope prog_scope with prog.
Notation "'let!' x ':=' p 'in' k" := (pbind p (fun x => k))
  (at level 10, x pattern, p at level 100, k at level 200) : prog_scope.
Notation "p ';;' k" := (pbind p (fun _ => k))
  (at level 100, k at level 200, right associativity) : prog_scope.
Local Open Scope prog_scope.

Definition sync {X} (op : SyncOp X) : Prog X := Sync op Ret.

(** [await mediaDatabase.c(...)]: a rejection is thrown at the [await]. *)
Definition await (c : MediaDbCall) : Prog (Result c) :=
  Await c (fun o => match o with Resolved x => Ret x | Rejected e => Throw e end).

(** [URL.createObjectURL(blob)], which may throw. *)
Definition createObjectURL (b : Blob) : Prog string :=
  Sync (CreateObjectURL b)
       (fun o => match o with Resolved u => Ret u | Rejected e => Throw e end).

(** [setCapturedMedia(updater)]: the updater sees the latest state.  Here
    React calls it once. *)
Definition setCapturedMedia (updater : list CapturedMedia.t -> Prog (list CapturedMedia.t))
  : Prog unit :=
  let! prev := sync ReadCapturedMedia in
  let! next := updater prev in
  sync (WriteCapturedMedia next).

(** React may call an updater more than once for one update, each time on
    the same previous state, and keeps what the last call returns: under
    [<StrictMode>], which the entry module renders around [<App />], a
    development build calls every updater twice.  [callUpdater extra] is the
    updater called [extra] times and then once more. *)
Fixpoint callUpdater (extra : nat)
         (updater : list CapturedMedia.t -> Prog (list CapturedMedia.t))
         (prev : list CapturedMedia.t) : Prog (list CapturedMedia.t) :=
  match extra with
  | O => updater prev
  | S extra' => updater prev ;; callUpdater extra' updater prev
  end.

Definition setCapturedMediaRepeated (extra : nat)
           (updater : list CapturedMedia.t -> Prog (list CapturedMedia.t)) : Prog unit :=
  let! prev := sync ReadCapturedMedia in
  let! next := callUpdater extra updater prev in
  sync (WriteCapturedMedia next).

(** The extra calls of a development build under [<StrictMode>]. *)
Definition strictMode : nat := 1.

(** [array.map(f)] and [array.forEach(f)] for an effectful callback. *)
Fixpoint mapP {A B} (f : A -> Prog B) (l : list A) : Prog (list B) :=
  match l with
  | [] => Ret []
  | x :: l' => let! y := f x in let! ys := mapP f l' in Ret (y :: ys)
  end.

Fixpoint forEach {A} (l : list A) (f : A -> Prog unit) : Prog unit :=
  match l with
  | [] => Ret tt
  | x :: l' => f x ;; forEach l' f
  end.

(** ** The world the programs run in *)

Inductive ConsoleLine :=
| Log (line : string)
| Err (line : string) (e : Thrown).

Record World := mkWorld {
  (** [useState] cells of the hook *)
  capturedMedia : list CapturedMedia.t;
  isLoading : bool;
  (** the module-level singleton [mediaDatabase] and its engine *)
  mediaDatabase : MediaDatabase.State;
  (** how many object URLs [URL.createObjectURL] has handed out *)
  objectURLs : nat;
  (** the blobs for which [URL.createObjectURL] throws, and what *)
  createObjectURLError : Blob -> option Thrown;
  (** the arguments of the [URL.revokeObjectURL] calls, oldest first *)
  revoked : list string;
  (** the successive readings of [Date.now()], and how many were taken *)
  dateNow : nat -> Z;
  dateNowCalls : nat;
  (** the successive values of [Math.random().toString(36).substr(2, 9)] *)
  randomSuffix : nat -> string;
  randomCalls : nat;
  (** the console, oldest line first *)
  console : list ConsoleLine;
  (** the calls made on [mediaDatabase], oldest first *)
  issued : list MediaDbCall
}.

Definition set_capturedMedia (v : list CapturedMedia.t) (w : World) : World :=
  mkWorld v (isLoading w) (mediaDatabase w) (objectURLs w) (createObjectURLError w)
          (revoked w) (dateNow w) (dateNowCalls w) (randomSuffix w) (randomCalls w)
          (console w) (issued w).
Definition set_isLoading (v : bool) (w : World) : World :=
  mkWorld (capturedMedia w) v (mediaDatabase w) (objectURLs w) (createObjectURLError w)
          (revoked w) (dateNow w) (dateNowCalls w) (randomSuffix w) (randomCalls w)
          (console w) (issued w).
Definition set_mediaDatabase (v : MediaDatabase.State) (w : World) : World :=
  mkWorld (capturedMedia w) (isLoading w) v (objectURLs w) (createObjectURLError w)
          (revoked w) (dateNow w) (dateNowCalls w) (randomSuffix w) (randomCalls w)
          (console w) (issued w).
Definition set_objectURLs (v : nat) (w : World) : World :=
  mkWorld (capturedMedia w) (isLoading w) (mediaDatabase w) v (createObjectURLError w)
          (revoked w) (dateNow w) (dateNowCalls w) (randomSuffix w) (randomCalls w)
          (console w) (issued w).
Definition set_revoked (v : list string) (w : World) : World :=
  mkWorld (capturedMedia w) (isLoading w) (mediaDatabase w) (objectURLs w)
          (createObjectURLError w) v (dateNow w) (dateNowCalls w) (randomSuffix w)
          (randomCalls w) (console w) (issued w).
Definition set_dateNowCalls (v : nat) (w : World) : World :=
  mkWorld (capturedMedia w) (isLoading w) (mediaDatabase w) (objectURLs w)
          (createObjectURLError w) (revoked w) (dateNow w) v (randomSuffix w)
          (randomCalls w) (console w) (issued w).
Definition set_randomCalls (v : nat) (w : World) : World :=
  mkWorld (capturedMedia w) (isLoading w) (mediaDatabase w) (objectURLs w)
          (createObjectURLError w) (revoked w) (dateNow w) (dateNowCalls w)
          (randomSuffix w) v (console w) (issued w).
Definition set_console (v : list ConsoleLine) (w : World) : World :=
  mkWorld (capturedMedia w) (isLoading w) (mediaDatabase w) (objectURLs w)
          (createObjectURLError w) (revoked w) (dateNow w) (dateNowCalls w)
          (randomSuffix w) (randomCalls w) v (issued w).
Definition set_issued (v : list MediaDbCall) (w : World) : World :=
  mkWorld (capturedMedia w) (isLoading w) (mediaDatabase w) (objectURLs w)
          (createObjectURLError w) (revoked w) (dateNow w) (dateNowCalls w)
          (randomSuffix w) (randomCalls w) (console w) v.

(** The URL handed out by the [n]-th successful [URL.createObjectURL]:
    always of the [blob:] scheme, and fresh. *)
Definition objectURL (n : nat) : string := "blob:media/" +:+ pretty n.

(** The call is made: it is on record. *)
Definition issue (c : MediaDbCall) (w : World) : World :=
  set_issued (issued w ++ [c]) w.

(** The promise of the call settles, the engine having done its work. *)
Definition settle (c : MediaDbCall) (w : World) : Settled (Result c) * World :=
  let (o, s') := perform c (mediaDatabase w) in
  (o, set_mediaDatabase s' w).

Definition handle {X} (op : SyncOp X) (w : World) : X * World :=
  match op in SyncOp X return X * World with
  | ReadCapturedMedia => (capturedMedia w, w)
  | WriteCapturedMedia next => (tt, set_capturedMedia next w)
  | SetIsLoading b => (tt, set_isLoading b w)
  | CreateObjectURL b =>
      match createObjectURLError w b with
      | Some e => (Rejected e, w)
      | None => (Resolved (objectURL (objectURLs w)), set_objectURLs (S (objectURLs w)) w)
      end
  | RevokeObjectURL url => (tt, set_revoked (revoked w ++ [url]) w)
  | DateNow => (dateNow w (dateNowCalls w), set_dateNowCalls (S (dateNowCalls w)) w)
  | RandomSuffix => (randomSuffix w (randomCalls w), set_randomCalls (S (randomCalls w)) w)
  | ConsoleLog line => (tt, set_console (console w ++ [Log line]) w)
  | ConsoleError line e => (tt, set_console (console w ++ [Err line e]) w)
  | FireAndForget c onRejected =>
      let (o, w') := settle c (issue c w) in
      (tt, match o with
           | Resolved _ => w'
           | Rejected e => set_console (console w' ++ [Err onRejected e]) w'
           end)
  end.

(** The body runs to its end, every awaited promise settling in its turn. *)
Fixpoint run {R} (p : Prog R) (w : World) : Settled R * World :=
  match p with
  | Ret r => (Resolved r, w)
  | Throw e => (Rejected e, w)
  | Sync op k => let (x, w') := handle op w in run (k x) w'
  | Await c k => let (o, w') := settle c (issue c w) in run (k o) w'
  end.

(** Where a body stands when control returns to the event loop: finished,
    or suspended at an [await] on a call whose promise is pending. *)
Inductive Status (R : Type) :=
| Done (r : Settled R)
| Pending (c : MediaDbCall) (k : Settled (Result c) -> Prog R).
Arguments Done {R} r.
Arguments Pending {R} c k.

(** The synchronous part of a body: up to its end or its first [await]. *)
Fixpoint start {R} (p : Prog R) (w : World) : Status R * World :=
  match p with
  | Ret r => (Done (Resolved r), w)
  | Throw e => (Done (Rejected e), w)
  | Sync op k => let (x, w') := handle op w in start (k x) w'
  | Await c k => (Pending c k, issue c w)
  end.

(** The pending promise settles in world [w]; the body goes on from there. *)
Definition resume {R} (c : MediaDbCall) (k : Settled (Result c) -> Prog R) (w : World)
  : Status R * World :=
  let (o, w') := settle c w in start (k o) w'.

(** ** What the hook uses of the JavaScript library *)

(** [Array.prototype.sort(compareFn)].  The language requires the sort to be
    stable; for a comparator that orders the elements consistently the result
    is then determined, and stable insertion computes it: [x] stays in front
    of [y] unless [compareFn(x, y) > 0]. *)
Section ArraySort.
Context {A : Type} (compareFn : A -> A -> Z).

Fixpoint sort_insert (x : A) (l : list A) : list A :=
  match l with
  | [] => [x]
  | y :: l' => if 0 <? compareFn x y then y :: sort_insert x l' else x :: l
  end.

Fixpoint Array_sort (l : list A) : list A :=
  match l with
  | [] => []
  | x :: l' => sort_insert x (Array_sort l')
  end.
End ArraySort.

(** [s.startsWith(p)] *)
Definition startsWith (p s : string) : bool := String.prefix p s.

(** [s.slice(0, n)] *)
Definition slice0 (n : nat) (s : string) : string := String.substring 0 n s.

(** [s.replace(/[:.]/g, '-')] *)
Fixpoint replaceColonDot (s : string) : string :=
  match s with
  | EmptyString => EmptyString
  | String c s' =>
      String (if Ascii.eqb c ":" then "-" else if Ascii.eqb c "." then "-" else c)%char
             (replaceColonDot s')
  end.

(** [String(n)] for an integer [n], and its zero-padded forms. *)
Definition Z_str (n : Z) : string := pretty n.

Fixpoint zeros (n : nat) : string :=
  match n with O => "" | S n' => "0" +:+ zeros n' end.

Definition padStart (width : nat) (n : Z) : string :=
  let s := Z_str n in zeros (width - String.length s) +:+ s.

(** [new Date(t).toISOString()]: the UTC calendar date of the time value
    [t] (milliseconds since 1970-01-01T00:00:00Z, proleptic Gregorian
    calendar), a [RangeError] outside of the range of time values. *)
Module JSDate.
Definition msPerDay : Z := 86400000.
Definition maxTimeValue : Z := 8640000000000000.

Definition isTimeValue (t : Z) : bool := Z.abs t <=? maxTimeValue.

(** year, month and day of the [days]-th day after 1970-01-01 *)
Definition civil (days : Z) : Z * Z * Z :=
  let z := days + 719468 in
  let era := z / 146097 in
  let doe := z - era * 146097 in
  let yoe := (doe - doe / 1460 + doe / 36524 - doe / 146096) / 365 in
  let doy := doe - (365 * yoe + yoe / 4 - yoe / 100) in
  let mp := (5 * doy + 2) / 153 in
  let d := doy - (153 * mp + 2) / 5 + 1 in
  let m := if mp <? 10 then mp + 3 else mp - 9 in
  let y := yoe + era * 400 + (if m <=? 2 then 1 else 0) in
  (y, m, d).

Definition yearString (y : Z) : string :=
  if (0 <=? y) && (y <=? 9999) then padStart 4 y
  else (if 0 <=? y then "+" else "-") +:+ padStart 6 (Z.abs y).

Definition isoString (t : Z) : string :=
  let '(y, m, d) := civil (t / msPerDay) in
  let ms := t mod msPerDay in
  yearString y +:+ "-" +:+ padStart 2 m +:+ "-" +:+ padStart 2 d +:+ "T" +:+
  padStart 2 (ms / 3600000) +:+ ":" +:+ padStart 2 (ms / 60000 mod 60) +:+ ":" +:+
  padStart 2 (ms / 1000 mod 60) +:+ "." +:+ padStart 3 (ms mod 1000) +:+ "Z".

Definition toISOString (t : Z) : Settled string :=
  if isTimeValue t then Resolved (isoString t)
  else Rejected (ThrownError RangeError "Invalid time value").
End JSDate.

(** ** [useMediaCapture] *)

Module useMediaCapture.

(** [b.timestamp - a.timestamp] *)
Definition newestFirst (a b : CapturedMedia.t) : Z :=
  CapturedMedia.timestamp b - CapturedMedia.timestamp a.

Definition restore (stored : StoredMediaData.t) : Prog CapturedMedia.t :=
  let! url := createObjectURL (StoredMediaData.blob stored) in
  Ret (CapturedMedia.mk (StoredMediaData.id stored) (StoredMediaData.type stored) url
         (StoredMediaData.blob stored) (StoredMediaData.timestamp stored)
         (StoredMediaData.filename stored) (Some (StoredMediaData.id stored))).

(** The effect run once, when the hook mounts. *)
Definition loadPersistedMedia : Prog unit :=
  tryFinally
    (tryCatch
       (sync (ConsoleLog "Loading persisted media from IndexedDB...") ;;
        let! storedMedia := await GetAllMedia in
        if (0 <? length storedMedia)%nat then
          let! restoredMedia := mapP restore storedMedia in
          let restoredMedia := Array_sort newestFirst restoredMedia in
          sync (WriteCapturedMedia restoredMedia) ;;
          sync (ConsoleLog ("Restored " +:+ pretty (length restoredMedia)
                            +:+ " media items from IndexedDB"))
        else Ret tt)
       (fun error => sync (ConsoleError "Failed to load persisted media:" error)))
    (sync (SetIsLoading false)).

Definition addMedia (media : CapturedMedia.t) : Prog unit :=
  tryCatch
    (let storedData :=
       StoredMediaData.mk (CapturedMedia.id media) (CapturedMedia.type media)
         (CapturedMedia.blob media) (CapturedMedia.timestamp media)
         (CapturedMedia.filename media) in
     let! indexedDbId := await (StoreMedia storedData) in
     let mediaWithId := CapturedMedia.with_indexedDbId media indexedDbId in
     setCapturedMedia (fun prev => Ret (mediaWithId :: prev)) ;;
     sync (ConsoleLog ("Media added and persisted: " +:+ CapturedMedia.id media)))
    (fun error =>
       sync (ConsoleError "Failed to persist media, adding to memory only:" error) ;;
       setCapturedMedia (fun prev => Ret (media :: prev))).

(** [if (s)] for [s : string | undefined] *)
Definition truthy (s : option string) : option string :=
  match s with
  | Some s => if String.eqb s "" then None else Some s
  | None => None
  end.

Definition revokeIfBlob (media : CapturedMedia.t) : Prog unit :=
  if startsWith "blob:" (CapturedMedia.url media)
  then sync (RevokeObjectURL (CapturedMedia.url media))
  else Ret tt.

(** The updater that [removeMedia(id)] hands to [setCapturedMedia]: the
    revocation and the [deleteMedia] are made inside it. *)
Definition removeUpdater (id : string) (prev : list CapturedMedia.t)
  : Prog (list CapturedMedia.t) :=
  let mediaToRemove := List.find (fun m => String.eqb (CapturedMedia.id m) id) prev in
  match mediaToRemove with
  | Some mediaToRemove =>
      revokeIfBlob mediaToRemove ;;
      match truthy (CapturedMedia.indexedDbId mediaToRemove) with
      | Some indexedDbId =>
          sync (FireAndForget (DeleteMedia indexedDbId)
                  "Failed to delete media from IndexedDB:")
      | None => Ret tt
      end
  | None => Ret tt
  end ;;
  Ret (List.filter (fun m => negb (String.eqb (CapturedMedia.id m) id)) prev).

(** [removeMedia(id)], React calling the updater once. *)
Definition removeMedia (id : string) : Prog unit :=
  setCapturedMedia (removeUpdater id).

(** [removeMedia(id)], React calling the updater [extra] more times. *)
Definition removeMediaRepeated (extra : nat) (id : string) : Prog unit :=
  setCapturedMediaRepeated extra (removeUpdater id).

(** [capturedMedia] is the collection the callback closed over: the one of
    the render that created it ([useCallback(..., [capturedMedia])]). *)
Definition clearAllMedia (capturedMedia : list CapturedMedia.t) : Prog unit :=
  tryCatch
    (await ClearAllMedia ;;
     sync (ConsoleLog "All media cleared from IndexedDB"))
    (fun error => sync (ConsoleError "Failed to clear media from IndexedDB:" error)) ;;
  forEach capturedMedia revokeIfBlob ;;
  sync (WriteCapturedMedia []).

Definition extension (type : CameraMode) : string :=
  match type with photo => "jpg" | video => "webm" end.

(** The file name, from the kind and the ISO form of the capture time. *)
Definition filenameFor (type : CameraMode) (iso : string) : string :=
  CameraMode_str type +:+ "_" +:+ replaceColonDot (slice0 19 iso) +:+ "." +:+ extension type.

Definition createMediaFromBlob (blob : Blob) (type : CameraMode) : Prog CapturedMedia.t :=
  let! now := sync DateNow in
  let! suffix := sync RandomSuffix in
  let id := CameraMode_str type +:+ "_" +:+ Z_str now +:+ "_" +:+ suffix in
  let! url :=
    tryCatch (createObjectURL blob)
             (fun error => sync (ConsoleError "Error creating object URL:" error) ;; Ret "") in
  let! timestamp := sync DateNow in
  let! iso := match JSDate.toISOString timestamp with
              | Resolved s => Ret s
              | Rejected e => Throw e
              end in
  let filename := filenameFor type iso in
  Ret (CapturedMedia.mk id type url blob timestamp filename None).

(** The hook as it is on mount: nothing captured, loading. *)
Definition mount (w : World) : World :=
  set_capturedMedia [] (set_isLoading true w).

End useMediaCapture.

(** A reload of the page: the module is evaluated anew (a new
    [MediaDatabase] whose [init] is started at once and only logged on
    failure), the hook mounts; what IndexedDB holds is what survives. *)
Definition reload (w : World) : World :=
  let fresh := MediaDatabase.mkState false (MediaDatabase.indexedDB (mediaDatabase w)) in
  let (o, s) := MediaDatabase.init fresh in
  let w' := useMediaCapture.mount (set_mediaDatabase s w) in
  match o with
  | Resolved _ => w'
  | Rejected e => set_console (console w' ++ [Err "Failed to initialize media database:" e]) w'
  end.

(** [restoreOnInit] after a reload. *)
Definition restoreOnInit (w : World) : Settled unit * World :=
  run useMediaCapture.loadPersistedMedia (reload w).

(** ** [FruitDetector.detectFruits]

    The values [JSON.parse] builds, and what reading a property of one
    gives.  A [number] is the double it denotes: a rational, an infinity
    or [NaN]. *)

Module FruitDetector.

Inductive number :=
| Finite (q : Q)
| PosInfinity
| NegInfinity
| NaN.

#[local] Set Warnings "-register-all".
Inductive JSValue :=
| JSUndefined
| JSNull
| JSBoolean (b : bool)
| JSNumber (n : number)
| JSString (s : string)
| JSArray (elements : list JSValue)
| JSObject (properties : list (string * JSValue)).

Fixpoint lookup_property (p : string) (properties : list (string * JSValue)) : JSValue :=
  match properties with
  | [] => JSUndefined
  | (k, v) :: rest => if String.eqb k p then v else lookup_property p rest
  end.

(** [v.p], for the property names the detector reads: none of them is a
    property of an array, a string, a number or a boolean. *)
Definition get (v : JSValue) (p : string) : Settled JSValue :=
  match v with
  | JSUndefined =>
      Rejected (ThrownError TypeError
                  ("Cannot read properties of undefined (reading '" +:+ p +:+ "')"))
  | JSNull =>
      Rejected (ThrownError TypeError
                  ("Cannot read properties of null (reading '" +:+ p +:+ "')"))
  | JSObject properties => Resolved (lookup_property p properties)
  | _ => Resolved JSUndefined
  end.

Fixpoint set_property (p : string) (v : JSValue) (properties : list (string * JSValue))
  : list (string * JSValue) :=
  match properties with
  | [] => [(p, v)]
  | (k, v') :: rest =>
      if String.eqb k p then (k, v) :: rest else (k, v') :: set_property p v rest
  end.

(** [o.p = v] *)
Definition set (o : JSValue) (p : string) (v : JSValue) : JSValue :=
  match o with
  | JSObject properties => JSObject (set_property p v properties)
  | _ => o
  end.

Definition truthy (v : JSValue) : bool :=
  match v with
  | JSUndefined | JSNull => false
  | JSBoolean b => b
  | JSNumber (Finite q) => negb (Qeq_bool q 0)
  | JSNumber NaN => false
  | JSNumber _ => true
  | JSString s => negb (String.eqb s "")
  | JSArray _ | JSObject _ => true
  end.

(** [typeof v === 'number'] *)
Definition isNumber (v : JSValue) : bool :=
  match v with JSNumber _ => true | _ => false end.

(** [Array.isArray(v)] *)
Definition isArray (v : JSValue) : bool :=
  match v with JSArray _ => true | _ => false end.

(** [n >= 0] and [n <= 1] *)
Definition ge0 (n : number) : bool :=
  match n with
  | Finite q => Qle_bool 0 q
  | PosInfinity => true
  | NegInfinity | NaN => false
  end.

Definition le1 (n : number) : bool :=
  match n with
  | Finite q => Qle_bool q 1
  | NegInfinity => true
  | PosInfinity | NaN => false
  end.

Definition sbind {A B} (m : Settled A) (k : A -> Settled B) : Settled B :=
  match m with Resolved a => k a | Rejected e => Rejected e end.

Declare Scope js_scope.
Delimit Scope js_scope with js.
Notation "'let?' x ':=' m 'in' k" := (sbind m (fun x => k))
  (at level 10, x pattern, m at level 100, k at level 200) : js_scope.
Local Open Scope js_scope.

(** [typeof box.p === 'number'] *)
Definition numberAt (box : JSValue) (p : string) : Settled bool :=
  let? v := get box p in Resolved (isNumber v).

(** The callback of [detectionResult.fruits.filter(...)]; the [&&] chain
    stops at its first falsy operand. *)
Definition keepFruit (fruit : JSValue) : Settled bool :=
  let? name := get fruit "name" in
  if negb (truthy name) then Resolved false else
  let? confidence := get fruit "confidence" in
  match confidence with
  | JSNumber c =>
      if negb (ge0 c) then Resolved false else
      if negb (le1 c) then Resolved false else
      let? boundingBox := get fruit "boundingBox" in
      if negb (truthy boundingBox) then Resolved false else
      let? ymin := numberAt boundingBox "ymin" in
      if negb ymin then Resolved false else
      let? xmin := numberAt boundingBox "xmin" in
      if negb xmin then Resolved false else
      let? ymax := numberAt boundingBox "ymax" in
      if negb ymax then Resolved false else
      numberAt boundingBox "xmax"
  | _ => Resolved false
  end.

(** [array.filter(f)] for a callback that may throw *)
Fixpoint filterS (f : JSValue -> Settled bool) (l : list JSValue) : Settled (list JSValue) :=
  match l with
  | [] => Resolved []
  | x :: l' =>
      let? keep := f x in
      let? rest := filterS f l' in
      Resolved (if keep then x :: rest else rest)
  end.

(** [hay.includes(needle)] *)
Definition includes (needle hay : string) : bool :=
  match String.index 0 needle hay with Some _ => true | None => false end.

(** What the service call comes to: it throws, or it answers a text on
    which [JSON.parse] gives a value or raises a [SyntaxError]. *)
Inductive ApiReply :=
| ApiThrows (e : Thrown)
| ApiText (parsed : option JSValue).

Record t := mk {
  isInitialized : bool;
  model : bool               (* [this.model] is set *)
}.

(** The [try] block of [detectFruits]. *)
Definition detect (reply : ApiReply) : Settled JSValue :=
  let? detectionResult :=
    match reply with
    | ApiThrows e => Rejected e
    | ApiText (Some v) => Resolved v
    | ApiText None => Rejected (ThrownError SyntaxError "Unexpected token")
    end in
  let? fruits := get detectionResult "fruits" in
  match fruits with
  | JSArray elements =>
      let? kept := filterS keepFruit elements in
      Resolved (set detectionResult "fruits" (JSArray kept))
  | _ => Rejected (ThrownError Error "Invalid response format from Gemini API")
  end.

(** The [catch] block: every failure leaves as a [FruitDetectionError]. *)
Definition rethrow (error : Thrown) : Thrown :=
  match error with
  | ThrownError SyntaxError _ =>
      ThrownError FruitDetectionError "Failed to parse detection results"
  | _ =>
      let errorMessage :=
        match error with ThrownError _ message => message | ThrownValue => "Unknown error" end in
      if includes "API key" errorMessage
      then ThrownError FruitDetectionError "Invalid API key or API quota exceeded"
      else ThrownError FruitDetectionError
             (if String.eqb errorMessage "" then "Unknown error occurred during fruit detection"
              else errorMessage)
  end.

Definition detectFruits (self : t) (reply : ApiReply) : Settled JSValue :=
  if negb (isInitialized self) || negb (model self) then
    Rejected (ThrownError FruitDetectionError
                "Gemini API not initialized. Please provide an API key.")
  else
    match detect reply with
    | Resolved detectionResult => Resolved detectionResult
    | Rejected error => Rejected (rethrow error)
    end.

(** The [fruits] of a result. *)
Definition fruitsOf (result : JSValue) : list JSValue :=
  match get result "fruits" with
  | Resolved (JSArray elements) => elements
  | _ => []
  end.

End FruitDetector.

(** ** Statements of the specification *)

(** Newest first, no two captures of one instant next to each other. *)
Definition descending (l : list CapturedMedia.t) : Prop :=
  StronglySorted (fun a b => CapturedMedia.timestamp b < CapturedMedia.timestamp a) l.

(** No record is in the object store yet. *)
Definition emptyStore (s : MediaDatabase.State) : Prop :=
  MediaDatabase.records s = [].

(** [storeMedia] called on each record of [rs], in the order of [rs]. *)
Definition storeAll (rs : list StoredMediaData.t) (s : MediaDatabase.State)
  : MediaDatabase.State :=
  foldl (fun s r => (MediaDatabase.storeMedia r s).2) s rs.

(** The record [addMedia] hands to the store. *)
Definition storedData (media : CapturedMedia.t) : StoredMediaData.t :=
  StoredMediaData.mk (CapturedMedia.id media) (CapturedMedia.type media)
    (CapturedMedia.blob media) (CapturedMedia.timestamp media)
    (CapturedMedia.filename media).

Definition isPending {R} (st : Status R) : bool :=
  match st with Pending _ _ => true | Done _ => false end.

(** Every entry of the store is a record of [seen], kept under its own [id]. *)
Definition holdsOnly (seen : list StoredMediaData.t) (s : MediaDatabase.State) : Prop :=
  forall k v, MediaDatabase.contents s !! k = Some v ->
              k = StoredMediaData.id v /\ v ∈ seen.

(** [w'] is [w] but for the object URLs handed out and the console. *)
Definition sameButURLs (w w' : World) : Prop :=
  capturedMedia w' = capturedMedia w /\ isLoading w' = isLoading w /\
  mediaDatabase w' = mediaDatabase w /\ revoked w' = revoked w /\
  issued w' = issued w /\ createObjectURLError w' = createObjectURLError w.

(** [media] is the display handle restored from the stored record [stored]. *)
Definition restoredFrom (stored : StoredMediaData.t) (media : CapturedMedia.t) : Prop :=
  storedData media = stored /\
  CapturedMedia.indexedDbId media = Some (StoredMediaData.id stored) /\
  startsWith "blob:" (CapturedMedia.url media) = true.

(** ** Sample worlds

    The scenario of the specification: photo A captured at t=100, video B
    at t=200, a third capture at t=300; an engine that works, one that
    refuses to write, one that refuses to read, one that cannot be opened. *)

Definition photoA : StoredMediaData.t :=
  StoredMediaData.mk "photo_100_x" photo [] 100 "photo_1970-01-01T00-00-00.jpg".
Definition videoB : StoredMediaData.t :=
  StoredMediaData.mk "video_200_y" video [] 200 "video_1970-01-01T00-00-00.webm".
Definition photoC : StoredMediaData.t :=
  StoredMediaData.mk "photo_300_z" photo [] 300 "photo_1970-01-01T00-00-00.jpg".

(** The display handle of a stored record, under the given URL. *)
Definition handleOf (url : string) (r : StoredMediaData.t) : CapturedMedia.t :=
  CapturedMedia.mk (StoredMediaData.id r) (StoredMediaData.type r) url
    (StoredMediaData.blob r) (StoredMediaData.timestamp r) (StoredMediaData.filename r)
    (Some (StoredMediaData.id r)).

Definition quotaExceeded : Thrown := ThrownError DOMException "QuotaExceededError".
Definition readFailed : Thrown := ThrownError DOMException "UnknownError".

Definition workingEngine : IDBFactory := mkIDB None None (fun _ => None).
Definition readOnlyEngine : IDBFactory :=
  mkIDB None None
        (fun r => match r with
                  | IDBPut _ | IDBDelete _ | IDBClear => Some quotaExceeded
                  | IDBGetAll => None
                  end).
Definition unreadableEngine : IDBFactory :=
  mkIDB None None (fun r => match r with IDBGetAll => Some readFailed | _ => None end).
Definition closedEngine : IDBFactory :=
  mkIDB None (Some (ThrownError DOMException "SecurityError")) (fun _ => None).

(** The application just loaded against [engine]: Date.now() reads 100, 200,
    300, ... and object URLs can be had for every blob. *)
Definition worldOn (engine : IDBFactory) : World :=
  mkWorld [] true (MediaDatabase.mkState false engine) 0 (fun _ => None) []
          (fun n => 100 * Z.of_nat (S n)) 0 (fun n => "r" +:+ pretty n) 0 [] [].

(** The record is the first of the collection, with or without the
    [indexedDbId] that a successful [put] adds. *)
Definition visibleAtHead (media : CapturedMedia.t) (w : World) : Prop :=
  exists m, capturedMedia w !! 0%nat = Some m /\
            (m = media \/ m = CapturedMedia.with_indexedDbId media (CapturedMedia.id media)).

(** The object URLs of a collection: the [url]s of the [blob:] scheme. *)
Definition blobURLs (l : list CapturedMedia.t) : list string :=
  CapturedMedia.url <$> List.filter (fun m => startsWith "blob:" (CapturedMedia.url m)) l.

(** [Date.now()] yields time values. *)
Definition clockValid (w : World) : Prop :=
  forall n, JSDate.isTimeValue (dateNow w n) = true.

(** Captures not yet handed to [addMedia]. *)
Definition mediaA : CapturedMedia.t :=
  CapturedMedia.mk "photo_100_x" photo "blob:media/a" [] 100
                   "photo_1970-01-01T00-00-00.jpg" None.
Definition mediaB : CapturedMedia.t :=
  CapturedMedia.mk "video_200_y" video "blob:media/b" [] 200
                   "video_1970-01-01T00-00-00.webm" None.

(** The world after [addMedia(mediaA)] then [addMedia(mediaB)]. *)
Definition worldAB (engine : IDBFactory) : World :=
  (run (useMediaCapture.addMedia mediaB)
       (run (useMediaCapture.addMedia mediaA) (worldOn engine)).2).2.

(** [s] ends with [suffix]. *)
Definition endsWith (suffix s : string) : Prop := exists stem, s = stem +:+ suffix.

(** ** The contract of a detected fruit *)

Module FruitContract.
Import FruitDetector.

(** [v.p], [undefined] where there is nothing to read. *)
Definition prop (v : JSValue) (p : string) : JSValue :=
  match get v p with Resolved x => x | Rejected _ => JSUndefined end.

(** a number in [0,1] *)
Definition inUnit (v : JSValue) : bool :=
  match v with JSNumber n => ge0 n && le1 n | _ => false end.

(** The contract as the specification words it: a name, a confidence in
    [0,1], and four box coordinates in [0,1]. *)
Definition claimed (fruit : JSValue) : bool :=
  truthy (prop fruit "name") &&
  inUnit (prop fruit "confidence") &&
  inUnit (prop (prop fruit "boundingBox") "ymin") &&
  inUnit (prop (prop fruit "boundingBox") "xmin") &&
  inUnit (prop (prop fruit "boundingBox") "ymax") &&
  inUnit (prop (prop fruit "boundingBox") "xmax").

(** The contract the filter enforces: a name, a confidence in [0,1], and
    a box whose four coordinates are numbers. *)
Definition checked (fruit : JSValue) : bool :=
  truthy (prop fruit "name") &&
  inUnit (prop fruit "confidence") &&
  truthy (prop fruit "boundingBox") &&
  isNumber (prop (prop fruit "boundingBox") "ymin") &&
  isNumber (prop (prop fruit "boundingBox") "xmin") &&
  isNumber (prop (prop fruit "boundingBox") "ymax") &&
  isNumber (prop (prop fruit "boundingBox") "xmax").

Definition num (q : Q) : JSValue := JSNumber (Finite q).

Definition box (ymin xmin ymax xmax : Q) : JSValue :=
  JSObject [("ymin", num ymin); ("xmin", num xmin); ("ymax", num ymax); ("xmax", num xmax)].

Definition fruit (name : string) (confidence : Q) (boundingBox : JSValue) : JSValue :=
  JSObject [("name", JSString name); ("confidence", num confidence);
            ("boundingBox", boundingBox)].

(** An apple well inside the image, a banana whose box leaves the unit
    square, and a cherry whose confidence is out of range. *)
Definition apple : JSValue := fruit "apple" (95 # 100) (box (2 # 10) (3 # 10) (8 # 10) (7 # 10)).
Definition banana : JSValue := fruit "banana" (9 # 10) (box 5 (1 # 10) 7 (5 # 10)).
Definition cherry : JSValue := fruit "cherry" (3 # 2) (box 0 0 1 1).

Definition sampleReply : ApiReply :=
  ApiText (Some (JSObject [("fruits", JSArray [apple; banana; cherry])])).

Definition ready : FruitDetector.t := FruitDetector.mk true true.
End FruitContract.

(** A world in which no object URL can be had; the clock reads
    2023-11-14T22:13:20Z. *)
Definition worldNoURLs : World :=
  mkWorld [] false (MediaDatabase.mkState false workingEngine) 0
          (fun _ => Some (ThrownError TypeError "Failed to execute 'createObjectURL'"))
          [] (fun _ => 1700000000000) 0 (fun _ => "k3j9x0q1z") 0 [] [].

(** The engine of [w] takes to failing the requests that [err] says. *)
Definition failingFrom (err : IDBRequest -> option Thrown) (w : World) : World :=
  let s := mediaDatabase w in
  let engine := MediaDatabase.indexedDB s in
  set_mediaDatabase
    (MediaDatabase.mkState (MediaDatabase.db s)
                           (mkIDB (objectStore engine) (openError engine) err)) w.

(** ** More of [FruitDetector]: the constructor and [preprocessImage] *)

Module FruitDetectorSetup.
Import FruitDetector.

(** [new FruitDetector(apiKey?)] leaves [isInitialized = false] and
    [model = null] unless it is given a key.  [sdk apiKey] is what building
    the client and its model for that key throws, if anything. *)
Definition initializeAPI (sdk : string -> option Thrown) (apiKey : string)
           (self : FruitDetector.t) : Settled unit * FruitDetector.t :=
  match sdk apiKey with
  | Some _ => (Rejected (ThrownError Error "Failed to initialize Gemini API"), self)
  | None => (Resolved tt, FruitDetector.mk true true)
  end.

Definition construct (sdk : string -> option Thrown) (apiKey : option string)
  : Settled FruitDetector.t :=
  let self := FruitDetector.mk false false in
  match apiKey with
  | None => Resolved self
  | Some key =>
      if String.eqb key "" then Resolved self
      else match initializeAPI sdk key self with
           | (Resolved _, self') => Resolved self'
           | (Rejected e, _) => Rejected e
           end
  end.

Definition isReady (self : FruitDetector.t) : bool :=
  isInitialized self && model self.

(** [s.split(',')]: the pieces between the commas, at least one. *)
Fixpoint split (sep : ascii) (s : string) : list string :=
  match s with
  | EmptyString => [EmptyString]
  | String c s' =>
      if Ascii.eqb c sep then EmptyString :: split sep s'
      else match split sep s' with
           | piece :: pieces => String c piece :: pieces
           | [] => [String c EmptyString]
           end
  end.

(** The longest prefix free of [';']: what [[^;]+] takes, when not empty. *)
Fixpoint upToSemicolon (s : string) : string :=
  match s with
  | EmptyString => EmptyString
  | String c s' => if Ascii.eqb c ";" then EmptyString else String c (upToSemicolon s')
  end.

(** [/data:([^;]+)/] tried at the start of [s]. *)
Definition matchHere (s : string) : option string :=
  if startsWith "data:" s then
    let group := upToSemicolon (String.substring 5 (String.length s - 5) s) in
    if String.eqb group "" then None else Some group
  else None.

(** [header.match(/data:([^;]+)/)]: group 1 of the leftmost match. *)
Fixpoint matchMime (header : string) : option string :=
  match matchHere header with
  | Some group => Some group
  | None =>
      match header with
      | EmptyString => None
      | String _ rest => matchMime rest
      end
  end.

Record Image := mkImage {
  mimeType : string;
  data : option string          (* [undefined] is [None] *)
}.

Definition preprocessImage (base64Image : string) : Image :=
  if startsWith "data:" base64Image then
    let parts := split "," base64Image in
    let header := nth 0 parts "" in
    mkImage (match matchMime header with
             | Some group => group
             | None => "image/jpeg"
             end)
            (parts !! 1%nat)
  else mkImage "image/jpeg" (Some base64Image).

(** [c] occurs in [s]. *)
Fixpoint occurs (c : ascii) (s : string) : bool :=
  match s with
  | EmptyString => false
  | String c' s' => Ascii.eqb c' c || occurs c s'
  end.

End FruitDetectorSetup.

(** ** [useFruitDetection] *)

Module DetectionStatus.
Inductive t := idle | processing | success | error.
End DetectionStatus.

Module useFruitDetection.
Import FruitDetector.

(** The state cells and the two refs of the hook. *)
Record State := mk {
  detectionResults : option JSValue;
  status : DetectionStatus.t;
  error : option string;
  isDetectorReady : bool;
  detectorRef : option FruitDetector.t;
  lastProcessingTime : Z
}.

Definition initial : State := mk None DetectionStatus.idle None false None 0.

Definition initializeDetector (sdk : string -> option Thrown) (newApiKey : string)
           (h : State) : State :=
  match FruitDetectorSetup.construct sdk (Some newApiKey) with
  | Resolved detector =>
      mk (detectionResults h) DetectionStatus.idle None
         (FruitDetectorSetup.isReady detector) (Some detector) (lastProcessingTime h)
  | Rejected err =>
      let errorMessage :=
        match err with
        | ThrownError _ message => message
        | ThrownValue => "Failed to initialize detector"
        end in
      mk (detectionResults h) DetectionStatus.error (Some errorMessage) false
         (detectorRef h) (lastProcessingTime h)
  end.

(** [shouldProcessFrame()], [now] being what [Date.now()] reads. *)
Definition shouldProcessFrame (processingInterval now : Z) (h : State) : bool * State :=
  if processingInterval <? now - lastProcessingTime h then
    (true, mk (detectionResults h) (status h) (error h) (isDetectorReady h)
              (detectorRef h) now)
  else (false, h).

(** [detectFruits(base64Image)] up to its [await]: the state it leaves, and
    the detector whose [detectFruits] it awaits, if it gets that far. *)
Definition detectFruits_begin (processingInterval now : Z) (h : State)
  : State * option FruitDetector.t :=
  match detectorRef h with
  | Some detector =>
      if FruitDetectorSetup.isReady detector then
        match shouldProcessFrame processingInterval now h with
        | (true, h') =>
            (mk (detectionResults h') DetectionStatus.processing None (isDetectorReady h')
                (detectorRef h') (lastProcessingTime h'),
             Some detector)
        | (false, h') => (h', None)
        end
      else
        (mk (detectionResults h) DetectionStatus.error
            (Some "Detector not initialized. Please provide an API key.")
            (isDetectorReady h) (detectorRef h) (lastProcessingTime h), None)
  | None =>
      (mk (detectionResults h) DetectionStatus.error
          (Some "Detector not initialized. Please provide an API key.")
          (isDetectorReady h) (detectorRef h) (lastProcessingTime h), None)
  end.

(** The rest of [detectFruits], once the detector's promise has settled. *)
Definition detectFruits_settle (o : Settled JSValue) (h : State) : State :=
  match o with
  | Resolved results =>
      mk (Some results) DetectionStatus.success (error h) (isDetectorReady h)
         (detectorRef h) (lastProcessingTime h)
  | Rejected err =>
      let errorMessage :=
        match err with
        | ThrownError _ message => message
        | ThrownValue => "Detection failed"
        end in
      mk None DetectionStatus.error (Some errorMessage) (isDetectorReady h)
         (detectorRef h) (lastProcessingTime h)
  end.

(** One whole call, the service answering [reply]. *)
Definition detectFruits (processingInterval now : Z) (reply : ApiReply) (h : State) : State :=
  match detectFruits_begin processingInterval now h with
  | (h', Some detector) => detectFruits_settle (FruitDetector.detectFruits detector reply) h'
  | (h', None) => h'
  end.

Definition clearResults (h : State) : State :=
  mk None DetectionStatus.idle None (isDetectorReady h) (detectorRef h)
     (lastProcessingTime h).

(** What a component can ask of the hook. *)
Inductive Command :=
| InitializeDetector (sdk : string -> option Thrown) (newApiKey : string)
| DetectFruits (processingInterval now : Z) (reply : ApiReply)
| ClearResults.

Definition exec (h : State) (c : Command) : State :=
  match c with
  | InitializeDetector sdk newApiKey => initializeDetector sdk newApiKey h
  | DetectFruits processingInterval now reply => detectFruits processingInterval now reply h
  | ClearResults => clearResults h
  end.

(** When the hook says the detector is ready, the detector it holds is. *)
Definition readyIsTrue (h : State) : Prop :=
  isDetectorReady h = true ->
  exists detector, detectorRef h = Some detector /\
                   FruitDetectorSetup.isReady detector = true.

End useFruitDetection.

(** ** The double-tap guard of the entry module

    [lastTouchEnd] is the module variable; [touchend now last] is the
    listener run when [(new Date()).getTime()] reads [now]: whether it calls
    [preventDefault], and the new [lastTouchEnd]. *)

Definition touchend (now lastTouchEnd : Z) : bool * Z :=
  (now - lastTouchEnd <=? 300, now).

(** The listener run on a series of touches; which were prevented. *)
Fixpoint touches (times : list Z) (lastTouchEnd : Z) : list bool :=
  match times with
  | [] => []
  | now :: rest =>
      let (prevented, lastTouchEnd') := touchend now lastTouchEnd in
      prevented :: touches rest lastTouchEnd'
  end.

(** Each touch comes at most [gap] ms after the one before. *)
Fixpoint closeTogether (gap : Z) (first : Z) (rest : list Z) : Prop :=
  match rest with
  | [] => True
  | next :: rest' => first <= next <= first + gap /\ closeTogether gap next rest'
  end.

(** ** Invariants of the store *)

(** The connection is only held on a database that has its object store. *)
Definition connected (s : MediaDatabase.State) : Prop :=
  MediaDatabase.db s = true -> is_Some (objectStore (MediaDatabase.indexedDB s)).

(** Every record is kept under its own [id] (the store's [keyPath]). *)
Definition keyedById (s : MediaDatabase.State) : Prop :=
  forall k v, MediaDatabase.contents s !! k = Some v -> k = StoredMediaData.id v.

(** The calls of [cs] made one after the other. *)
Definition performAll (cs : list MediaDbCall) (s : MediaDatabase.State)
  : MediaDatabase.State :=
  foldl (fun s c => (perform c s).2) s cs.

(** ** [downloadMedia] and [downloadMediaBlob]

    What they use of the document: anchors created, put in the body, clicked
    and taken out again, timeouts, [window.open], the width of the window. *)

(** The [URL.revokeObjectURL] effect, under a name of its own. *)
Definition revokeObjectURL (url : string) (w : World) : World :=
  (handle (RevokeObjectURL url) w).2.

Module Download.

(** An [<a>] element; [node] tells one element from another. *)
Record Link := mkLink {
  node : nat;
  href : string;
  download : option string;
  displayNone : bool;             (* [style.display = 'none'] *)
  target : option string;
  rel : option string
}.

(** The callbacks handed to [setTimeout]. *)
Inductive Callback :=
| ClickThenRemove (link : Link)   (* click, then remove 100 ms later *)
| RemoveChild (link : Link)
| RevokeObjectURL (url : string).

Record Page := mkPage {
  innerWidth : Z;
  (** [document.body.appendChild] throws this, if anything *)
  appendChildError : option Thrown;
  (** elements created so far *)
  nodes : nat;
  body : list Link;
  (** the elements clicked, oldest first *)
  clicks : list Link;
  (** the [window.open] calls: URL and target *)
  opened : list (string * string);
  (** the time, and the timeouts pending with the time each is due *)
  now : Z;
  timers : list (Z * Callback)
}.

Definition Browser : Type := World * Page.

Definition with_body (v : list Link) (p : Page) : Page :=
  mkPage (innerWidth p) (appendChildError p) (nodes p) v (clicks p) (opened p) (now p)
         (timers p).
Definition with_clicks (v : list Link) (p : Page) : Page :=
  mkPage (innerWidth p) (appendChildError p) (nodes p) (body p) v (opened p) (now p)
         (timers p).
Definition with_opened (v : list (string * string)) (p : Page) : Page :=
  mkPage (innerWidth p) (appendChildError p) (nodes p) (body p) (clicks p) v (now p)
         (timers p).
Definition with_timers (t : Z) (v : list (Z * Callback)) (p : Page) : Page :=
  mkPage (innerWidth p) (appendChildError p) (nodes p) (body p) (clicks p) (opened p) t v.

(** [document.createElement('a')] *)
Definition createElement (p : Page) : Link * Page :=
  (mkLink (nodes p) "" None false None None,
   mkPage (innerWidth p) (appendChildError p) (S (nodes p)) (body p) (clicks p) (opened p)
          (now p) (timers p)).

(** [document.body.appendChild(link)] *)
Definition appendChild (link : Link) (p : Page) : Settled unit * Page :=
  match appendChildError p with
  | Some e => (Rejected e, p)
  | None => (Resolved tt, with_body (body p ++ [link]) p)
  end.

(** [link.click()] *)
Definition click (link : Link) (p : Page) : Page := with_clicks (clicks p ++ [link]) p.

(** [document.body.removeChild(link)]: a [NotFoundError] when [link] is not
    a child of the body. *)
Definition removeChild (link : Link) (p : Page) : Settled unit * Page :=
  if existsb (fun l => Nat.eqb (node l) (node link)) (body p) then
    (Resolved tt,
     with_body (List.filter (fun l => negb (Nat.eqb (node l) (node link))) (body p)) p)
  else (Rejected (ThrownError DOMException "NotFoundError"), p).

(** [setTimeout(callback, delay)] *)
Definition setTimeout (callback : Callback) (delay : Z) (p : Page) : Page :=
  with_timers (now p) (timers p ++ [(now p + delay, callback)]) p.

(** [window.open(url, target)] *)
Definition windowOpen (url target : string) (p : Page) : Page :=
  with_opened (opened p ++ [(url, target)]) p.

Definition consoleError (line : string) (e : Thrown) (w : World) : World :=
  (handle (ConsoleError line e) w).2.

Definition downloadMedia (media : CapturedMedia.t) (b : Browser) : Settled unit * Browser :=
  let (w, p) := b in
  let (link, p) := createElement p in
  if innerWidth p <=? 768 then
    let link := mkLink (node link) (CapturedMedia.url media)
                       (Some (CapturedMedia.filename media)) true (Some "_blank")
                       (Some "noopener noreferrer") in
    match appendChild link p with
    | (Resolved _, p) => (Resolved tt, (w, setTimeout (ClickThenRemove link) 10 p))
    | (Rejected error, p) =>
        (Resolved tt,
         (consoleError "Mobile download failed, trying fallback:" error w,
          windowOpen (CapturedMedia.url media) "_blank" p))
    end
  else
    let link := mkLink (node link) (CapturedMedia.url media)
                       (Some (CapturedMedia.filename media)) false None None in
    match appendChild link p with
    | (Resolved _, p) =>
        let p := click link p in
        match removeChild link p with
        | (Resolved _, p) => (Resolved tt, (w, p))
        | (Rejected e, p) => (Rejected e, (w, p))
        end
    | (Rejected e, p) => (Rejected e, (w, p))
    end.

Definition downloadMediaBlob (media : CapturedMedia.t) (b : Browser) : Settled unit * Browser :=
  let (w, p) := b in
  let fallback (error : Thrown) (w : World) (p : Page) :=
    downloadMedia media (consoleError "Blob download failed, using fallback:" error w, p) in
  match handle (CreateObjectURL (CapturedMedia.blob media)) w with
  | (Resolved url, w) =>
      let (link, p) := createElement p in
      let link := mkLink (node link) url None true None None in
      match appendChild link p with
      | (Resolved _, p) =>
          let p := click link p in
          (Resolved tt, (w, setTimeout (RevokeObjectURL url) 100 p))
      | (Rejected error, p) => fallback error w p
      end
  | (Rejected error, w) => fallback error w p
  end.

(** The timeout due first (the older one, of two due at the same time), and
    the others. *)
Fixpoint earliest (ts : list (Z * Callback)) : option ((Z * Callback) * list (Z * Callback)) :=
  match ts with
  | [] => None
  | t :: rest =>
      match earliest rest with
      | Some (t', rest') =>
          if t.1 <=? t'.1 then Some (t, rest) else Some (t', t :: rest')
      | None => Some (t, [])
      end
  end.

(** A callback runs; what it throws is nobody's to catch. *)
Definition runCallback (callback : Callback) (b : Browser) : Browser :=
  let (w, p) := b in
  match callback with
  | ClickThenRemove link => (w, setTimeout (RemoveChild link) 100 (click link p))
  | RemoveChild link => (w, (removeChild link p).2)
  | RevokeObjectURL url => (revokeObjectURL url w, p)
  end.

(** Time passes until no timeout is pending, or [fuel] callbacks have run. *)
Fixpoint runTimers (fuel : nat) (b : Browser) : Browser :=
  match fuel with
  | O => b
  | S fuel' =>
      match earliest (timers b.2) with
      | None => b
      | Some ((due, callback), rest) =>
          runTimers fuel' (runCallback callback (b.1, with_timers due rest b.2))
      end
  end.

End Download.

(** * Proofs *)

(** ** Running composed programs *)

Lemma run_pbind {A B} (p : Prog A) (f : A -> Prog B) (w : World) :
  run (pbind p f) w =
  match run p w with
  | (Resolved a, w') => run (f a) w'
  | (Rejected e, w') => (Rejected e, w')
  end.
Proof.
  revert w. induction p as [a|e|X op k IH|c k IH]; intros w; simpl; try reflexivity.
  - destruct (handle op w) as [x w']. apply IH.
  - destruct (settle c (issue c w)) as [o w']. apply IH.
Qed.

Lemma run_tryCatch {A} (p : Prog A) (h : Thrown -> Prog A) (w : World) :
  run (tryCatch p h) w =
  match run p w with
  | (Resolved a, w') => (Resolved a, w')
  | (Rejected e, w') => run (h e) w'
  end.
Proof.
  revert w. induction p as [a|e|X op k IH|c k IH]; intros w; simpl; try reflexivity.
  - destruct (handle op w) as [x w']. apply IH.
  - destruct (settle c (issue c w)) as [o w']. apply IH.
Qed.

Lemma run_tryFinally {A} (p : Prog A) (c : Prog unit) (w : World) :
  run (tryFinally p c) w =
  match run p w with
  | (Resolved a, w') =>
      match run c w' with
      | (Resolved _, w'') => (Resolved a, w'')
      | (Rejected e, w'') => (Rejected e, w'')
      end
  | (Rejected e, w') =>
      match run c w' with
      | (Resolved _, w'') => (Rejected e, w'')
      | (Rejected e', w'') => (Rejected e', w'')
      end
  end.
Proof.
  revert w. induction p as [a|e|X op k IH|ca k IH]; intros w; simpl.
  - rewrite run_pbind. destruct (run c w) as [[[]|e] w']; reflexivity.
  - rewrite run_pbind. destruct (run c w) as [[[]|e'] w']; reflexivity.
  - destruct (handle op w) as [x w']. apply IH.
  - destruct (settle ca (issue ca w)) as [o w']. apply IH.
Qed.

Lemma run_await (c : MediaDbCall) (w : World) :
  run (await c) w = settle c (issue c w).
Proof.
  unfold await. simpl. destruct (settle c (issue c w)) as [[x|e] w']; reflexivity.
Qed.

(** Running is starting, then resuming until done. *)
Lemma run_start {R} (p : Prog R) (w : World) :
  run p w =
  match start p w with
  | (Done r, w') => (r, w')
  | (Pending c k, w') => let (o, w'') := settle c w' in run (k o) w''
  end.
Proof.
  revert w. induction p as [a|e|X op k IH|c k IH]; intros w; simpl; try reflexivity.
  destruct (handle op w) as [x w']. apply IH.
Qed.

(** ** The durable store *)

Lemma inKeyOrder_Permutation (s : gmap string StoredMediaData.t) :
  inKeyOrder s ≡ₚ map_to_list s.
Proof. apply merge_sort_Permutation. Qed.

Lemma elem_of_inKeyOrder (s : gmap string StoredMediaData.t) (k : string)
      (v : StoredMediaData.t) :
  (k, v) ∈ inKeyOrder s <-> s !! k = Some v.
Proof. rewrite inKeyOrder_Permutation. apply elem_of_map_to_list. Qed.

Lemma NoDup_inKeyOrder (s : gmap string StoredMediaData.t) : NoDup (inKeyOrder s).
Proof. rewrite inKeyOrder_Permutation. apply NoDup_map_to_list. Qed.

Lemma inKeyOrder_empty : inKeyOrder ∅ = [].
Proof. reflexivity. Qed.

Lemma inKeyOrder_nil (s : gmap string StoredMediaData.t) : inKeyOrder s = [] -> s = ∅.
Proof.
  intros He. apply map_to_list_empty_iff, Permutation_nil_r.
  rewrite <- inKeyOrder_Permutation. by rewrite He.
Qed.

(** [getAll] lists the records by ascending [id]. *)
Lemma inKeyOrder_sorted (s : gmap string StoredMediaData.t) :
  Sorted keyOrder (inKeyOrder s).
Proof.
  assert (Total keyOrder) by (intros a b; apply (total String.le)).
  apply (Sorted_merge_sort keyOrder).
Qed.

Example getAll_by_ascending_key :
  MediaDatabase.records
    (storeAll [videoB; photoC; photoA] (MediaDatabase.mkState false workingEngine))
  = [photoA; photoC; videoB].
Proof. vm_compute. reflexivity. Qed.

Section MediaDatabaseFacts.
Import MediaDatabase.

Lemma ensureDB_spec (s : State) :
  ensureDB s =
  if db s then (Resolved tt, s)
  else match openError (indexedDB s) with
       | Some e => (Rejected e, s)
       | None => (Resolved tt, mkState true (with_objectStore (indexedDB s) (contents s)))
       end.
Proof.
  unfold ensureDB, bind, init, ret, throw. destruct s as [[] f]; simpl; [reflexivity|].
  destruct (openError f); reflexivity.
Qed.

(** Opening the database changes neither what is stored nor the engine's
    disposition to fail. *)
Lemma ensureDB_frame (s s' : State) (o : Settled unit) :
  ensureDB s = (o, s') ->
  contents s' = contents s /\
  openError (indexedDB s') = openError (indexedDB s) /\
  requestError (indexedDB s') = requestError (indexedDB s).
Proof.
  rewrite ensureDB_spec. destruct s as [b f]; simpl.
  destruct b; [intros [= <- <-]; auto|].
  destruct (openError f) eqn:E; intros [= <- <-]; simpl; auto.
Qed.

(** A request either fails and changes nothing, or is applied. *)
Lemma request_spec (r : IDBRequest) (s s' : State) (o : Settled IDBResult) :
  request r s = (o, s') ->
  openError (indexedDB s') = openError (indexedDB s) /\
  requestError (indexedDB s') = requestError (indexedDB s) /\
  match o with
  | Resolved res => (res, contents s') = IDB_apply r (contents s)
  | Rejected _ => s' = s
  end.
Proof.
  unfold request, contents. destruct (objectStore (indexedDB s)) as [m|] eqn:Em.
  - destruct (requestError (indexedDB s) r).
    + intros [= <- <-]. auto.
    + destruct (IDB_apply r m) as [res m'] eqn:Ea. intros [= <- <-]. simpl. auto.
  - intros [= <- <-]. auto.
Qed.

(** What one [put] leaves under the key of the record. *)
Lemma entries_insert (k : string) (v : StoredMediaData.t)
      (m : gmap string StoredMediaData.t) :
  filter (fun kv : string * StoredMediaData.t => kv.1 = k) (map_to_list (<[k:=v]> m))
  = [(k, v)].
Proof.
  apply Permutation_singleton_r.
  rewrite <- insert_delete_eq.
  rewrite map_to_list_insert by apply lookup_delete_eq.
  rewrite filter_cons_True by reflexivity.
  apply Permutation_skip.
  match goal with |- ?l ≡ₚ [] => assert (l = []) as ->; [|reflexivity] end.
  apply elem_of_nil_inv.
  intros [k' v'] (Hk & Hin%elem_of_map_to_list)%list_elem_of_filter.
  simpl in Hk. subst k'. rewrite lookup_delete_eq in Hin. discriminate.
Qed.

(** [storeMedia] either resolves with the [id], the record put, or rejects,
    nothing stored. *)
Lemma storeMedia_spec (r : StoredMediaData.t) (s s' : State) (o : Settled string) :
  storeMedia r s = (o, s') ->
  match o with
  | Resolved k =>
      k = StoredMediaData.id r /\
      contents s' = <[StoredMediaData.id r := r]> (contents s)
  | Rejected _ => contents s' = contents s
  end.
Proof.
  unfold storeMedia, bind at 1.
  destruct (ensureDB s) as [[[]|e0] s0] eqn:E0;
    apply ensureDB_frame in E0 as (Hc & _ & _).
  - unfold bind at 1.
    destruct (request (IDBPut r) s0) as [[res|e1] s1] eqn:E1;
      apply request_spec in E1 as (_ & _ & H1).
    + unfold ret. intros [= <- <-]. split; [reflexivity|].
      simpl in H1. injection H1 as _ ->. by rewrite Hc.
    + intros [= <- <-]. by subst s1.
  - intros [= <- <-]. exact Hc.
Qed.

(** [getAllMedia] resolves with the records, and stores nothing. *)
Lemma getAllMedia_spec (s s' : State) (o : Settled (list StoredMediaData.t)) :
  getAllMedia s = (o, s') ->
  contents s' = contents s /\
  match o with
  | Resolved media => media = records s
  | Rejected _ => True
  end.
Proof.
  unfold getAllMedia, bind at 1.
  destruct (ensureDB s) as [[[]|e0] s0] eqn:E0;
    apply ensureDB_frame in E0 as (Hc & _ & _).
  - unfold bind at 1.
    destruct (request IDBGetAll s0) as [[res|e1] s1] eqn:E1;
      apply request_spec in E1 as (_ & _ & H1).
    + unfold ret. intros [= <- <-]. simpl in H1. injection H1 as -> ->.
      split; [exact Hc|]. unfold records. by rewrite Hc.
    + intros [= <- <-]. by subst s1.
  - intros [= <- <-]. auto.
Qed.

End MediaDatabaseFacts.

(** C7. Two [storeMedia] calls for one [id], both carried out, leave exactly
    one entry under that [id] in the object store: the record of the second
    call (last write wins); with the same record twice, the second call
    leaves the store as the first left it. *)
Theorem storeMedia_put_idempotent (r1 r2 : StoredMediaData.t) (s : MediaDatabase.State) :
  StoredMediaData.id r1 = StoredMediaData.id r2 ->
  is_resolved (MediaDatabase.storeMedia r1 s).1 = true ->
  let s1 := (MediaDatabase.storeMedia r1 s).2 in
  is_resolved (MediaDatabase.storeMedia r2 s1).1 = true ->
  let s2 := (MediaDatabase.storeMedia r2 s1).2 in
  MediaDatabase.entries_with_key (StoredMediaData.id r2) s2 = [(StoredMediaData.id r2, r2)] /\
  (r1 = r2 -> MediaDatabase.contents s2 = MediaDatabase.contents s1).
Proof.
  intros Hid H1 s1 H2 s2. subst s1 s2.
  destruct (MediaDatabase.storeMedia r1 s) as [[k1|e] s1] eqn:E1; [|discriminate].
  simpl in *.
  destruct (MediaDatabase.storeMedia r2 s1) as [[k2|e] s2] eqn:E2; [|discriminate].
  simpl.
  apply storeMedia_spec in E1 as (_ & Hc1).
  apply storeMedia_spec in E2 as (_ & Hc2).
  split.
  - unfold MediaDatabase.entries_with_key. rewrite Hc2. apply entries_insert.
  - intros ->. rewrite Hc2, Hc1. apply insert_insert_eq.
Qed.

Lemma storeMedia_put_idempotent_witness :
  let s1 := (MediaDatabase.storeMedia photoA (mediaDatabase (worldOn workingEngine))).2 in
  let s2 := (MediaDatabase.storeMedia photoA s1).2 in
  MediaDatabase.entries_with_key (StoredMediaData.id photoA) s2
  = [(StoredMediaData.id photoA, photoA)] /\
  (photoA = photoA -> MediaDatabase.contents s2 = MediaDatabase.contents s1).
Proof.
  apply (storeMedia_put_idempotent photoA photoA (mediaDatabase (worldOn workingEngine)));
    reflexivity.
Defined.

(** ** [Array.prototype.sort] *)

Section ArraySortFacts.
Context {A : Type} (compareFn : A -> A -> Z).

Lemma sort_insert_Permutation (x : A) (l : list A) :
  sort_insert compareFn x l ≡ₚ x :: l.
Proof.
  induction l as [|y l IH]; simpl; [reflexivity|].
  destruct (0 <? compareFn x y); [|reflexivity].
  rewrite IH. apply Permutation_swap.
Qed.

Lemma Array_sort_Permutation (l : list A) : Array_sort compareFn l ≡ₚ l.
Proof.
  induction l as [|x l IH]; simpl; [reflexivity|].
  rewrite sort_insert_Permutation. by rewrite IH.
Qed.

(** [a] may stand in front of [b]. *)
Let before (a b : A) : Prop := compareFn a b <= 0.

Hypothesis before_trans : forall a b c, before a b -> before b c -> before a c.
Hypothesis before_total : forall a b, 0 < compareFn a b -> before b a.

Lemma sort_insert_sorted (x : A) (l : list A) :
  StronglySorted before l -> StronglySorted before (sort_insert compareFn x l).
Proof.
  induction 1 as [|y l Hl IH Hy]; simpl.
  - repeat constructor.
  - destruct (0 <? compareFn x y) eqn:E.
    + apply Z.ltb_lt in E. constructor; [exact IH|].
      rewrite sort_insert_Permutation. constructor; [by apply before_total|exact Hy].
    + apply Z.ltb_ge in E. constructor; [by constructor|].
      constructor; [exact E|].
      eapply Forall_impl; [exact Hy|]. intros z Hz. by apply before_trans with y.
Qed.

Lemma Array_sort_sorted (l : list A) : StronglySorted before (Array_sort compareFn l).
Proof.
  induction l as [|x l IH]; simpl; [constructor|]. by apply sort_insert_sorted.
Qed.
End ArraySortFacts.

(** Sorted by [newestFirst], and no two timestamps equal: strictly descending. *)
Lemma newestFirst_descending (l : list CapturedMedia.t) :
  NoDup (CapturedMedia.timestamp <$> l) ->
  descending (Array_sort useMediaCapture.newestFirst l).
Proof.
  intros Hnd.
  assert (Hs := Array_sort_sorted useMediaCapture.newestFirst
                  ltac:(unfold useMediaCapture.newestFirst; intros; lia)
                  ltac:(unfold useMediaCapture.newestFirst; intros; lia) l).
  assert (Hnd' : NoDup (CapturedMedia.timestamp <$> Array_sort useMediaCapture.newestFirst l))
    by (by rewrite Array_sort_Permutation).
  clear Hnd. unfold descending.
  induction Hs as [|a s Hs IH Ha]; [constructor|].
  rewrite fmap_cons in Hnd'. apply NoDup_cons in Hnd' as [Hnotin Hnd'].
  constructor; [by apply IH|].
  apply Forall_forall. intros b Hb.
  rewrite Forall_forall in Ha. specialize (Ha b Hb).
  unfold useMediaCapture.newestFirst in Ha.
  assert (CapturedMedia.timestamp b <> CapturedMedia.timestamp a); [|lia].
  intros Heq. apply Hnotin. rewrite <- Heq. by apply list_elem_of_fmap_2.
Qed.

(** ** What the store holds after a series of [storeMedia] *)

Section StoreContents.
Import MediaDatabase.

Lemma holdsOnly_empty (s : State) : emptyStore s -> holdsOnly [] s.
Proof.
  unfold emptyStore, records, holdsOnly. intros He k v Hk.
  apply fmap_nil_inv, inKeyOrder_nil in He. rewrite He in Hk.
  rewrite lookup_empty in Hk. discriminate.
Qed.

Lemma holdsOnly_storeMedia (seen : list StoredMediaData.t) (r : StoredMediaData.t)
      (s : State) :
  holdsOnly seen s -> holdsOnly (seen ++ [r]) (storeMedia r s).2.
Proof.
  intros Hs. destruct (storeMedia r s) as [[k0|e] s'] eqn:E; simpl;
    apply storeMedia_spec in E; intros k v Hk.
  - destruct E as [_ Hc]. rewrite Hc in Hk.
    destruct (decide (StoredMediaData.id r = k)) as [<-|Hne].
    + rewrite lookup_insert_eq in Hk. injection Hk as <-. split; [reflexivity|].
      apply elem_of_app. right. by apply list_elem_of_singleton.
    + rewrite lookup_insert_ne in Hk by exact Hne.
      destruct (Hs _ _ Hk) as [? ?]. split; [done|]. apply elem_of_app. by left.
  - rewrite E in Hk. destruct (Hs _ _ Hk) as [? ?]. split; [done|].
    apply elem_of_app. by left.
Qed.

Lemma holdsOnly_storeAll (rs seen : list StoredMediaData.t) (s : State) :
  holdsOnly seen s -> holdsOnly (seen ++ rs) (storeAll rs s).
Proof.
  revert seen s. induction rs as [|r rs IH]; intros seen s Hs; simpl.
  - by rewrite app_nil_r.
  - replace (seen ++ r :: rs) with ((seen ++ [r]) ++ rs) by (by rewrite <- app_assoc).
    apply IH. by apply holdsOnly_storeMedia.
Qed.

(** Among records of distinct timestamps, the timestamp names the record. *)
Lemma timestamp_names (rs : list StoredMediaData.t) (x y : StoredMediaData.t) :
  NoDup (StoredMediaData.timestamp <$> rs) -> x ∈ rs -> y ∈ rs ->
  StoredMediaData.timestamp x = StoredMediaData.timestamp y -> x = y.
Proof.
  induction rs as [|r rs IH]; intros Hnd Hx Hy Heq; [by apply elem_of_nil in Hx|].
  rewrite fmap_cons in Hnd. apply NoDup_cons in Hnd as [Hr Hnd].
  apply elem_of_cons in Hx as [->|Hx]; apply elem_of_cons in Hy as [->|Hy]; auto.
  - exfalso. apply Hr. rewrite Heq. by apply list_elem_of_fmap_2.
  - exfalso. apply Hr. rewrite <- Heq. by apply list_elem_of_fmap_2.
Qed.

Lemma holdsOnly_distinct (rs : list StoredMediaData.t) (s : State) :
  holdsOnly rs s -> NoDup (StoredMediaData.timestamp <$> rs) ->
  NoDup (StoredMediaData.timestamp <$> records s).
Proof.
  intros Hs Hnd. unfold records. rewrite <- list_fmap_compose.
  apply NoDup_fmap_2_strong; [|apply NoDup_inKeyOrder].
  intros [k1 v1] [k2 v2] H1%elem_of_inKeyOrder H2%elem_of_inKeyOrder Heq. simpl in Heq.
  destruct (Hs _ _ H1) as [-> Hv1], (Hs _ _ H2) as [-> Hv2].
  by rewrite (timestamp_names rs v1 v2 Hnd Hv1 Hv2 Heq).
Qed.

(** Records of distinct timestamps, stored in whatever order into an empty
    store, are held with distinct timestamps. *)
Lemma storeAll_distinct (rs : list StoredMediaData.t) (s : State) :
  emptyStore s -> NoDup (StoredMediaData.timestamp <$> rs) ->
  NoDup (StoredMediaData.timestamp <$> records (storeAll rs s)).
Proof.
  intros He Hnd. apply holdsOnly_distinct with rs; [|exact Hnd].
  apply (holdsOnly_storeAll rs [] s). by apply holdsOnly_empty.
Qed.
End StoreContents.

(** ** Restoring on mount *)

Lemma startsWith_objectURL (n : nat) : startsWith "blob:" (objectURL n) = true.
Proof. reflexivity. Qed.

Lemma sameButURLs_refl (w : World) : sameButURLs w w.
Proof. by repeat split. Qed.

Lemma sameButURLs_trans (w1 w2 w3 : World) :
  sameButURLs w1 w2 -> sameButURLs w2 w3 -> sameButURLs w1 w3.
Proof.
  unfold sameButURLs. intros (?&?&?&?&?&?) (?&?&?&?&?&?). repeat split; congruence.
Qed.

Lemma run_restore (stored : StoredMediaData.t) (w : World) :
  match run (useMediaCapture.restore stored) w with
  | (Resolved media, w') =>
      restoredFrom stored media /\ sameButURLs w w' /\
      createObjectURLError w (StoredMediaData.blob stored) = None
  | (Rejected e, w') =>
      w' = w /\ createObjectURLError w (StoredMediaData.blob stored) = Some e
  end.
Proof.
  unfold useMediaCapture.restore, createObjectURL. simpl.
  destruct (createObjectURLError w (StoredMediaData.blob stored)) as [e|]; simpl; [done|].
  destruct stored. repeat split.
Qed.

Lemma run_mapP_restore (stored : list StoredMediaData.t) (w : World) :
  match run (mapP useMediaCapture.restore stored) w with
  | (Resolved l, w') =>
      Forall2 restoredFrom stored l /\ sameButURLs w w' /\
      Forall (fun r => createObjectURLError w (StoredMediaData.blob r) = None) stored
  | (Rejected e, w') =>
      sameButURLs w w' /\
      Exists (fun r => createObjectURLError w (StoredMediaData.blob r) = Some e) stored
  end.
Proof.
  revert w. induction stored as [|r stored IH]; intros w; cbn [mapP].
  - simpl. split; [constructor|]. split; [apply sameButURLs_refl|constructor].
  - rewrite run_pbind. assert (Hr := run_restore r w).
    destruct (run (useMediaCapture.restore r) w) as [[m|e] w1].
    + destruct Hr as (Hm & Hw1 & Hnone).
      rewrite run_pbind. specialize (IH w1).
      assert (Herr : createObjectURLError w1 = createObjectURLError w) by apply Hw1.
      destruct (run (mapP useMediaCapture.restore stored) w1) as [[l|e] w2]; simpl.
      * destruct IH as (Hl & Hw2 & Hall). split; [by constructor|].
        split; [by eapply sameButURLs_trans|].
        constructor; [exact Hnone|]. by rewrite <- Herr.
      * destruct IH as (Hw2 & Hex). split; [by eapply sameButURLs_trans|].
        apply Exists_cons_tl. by rewrite <- Herr.
    + destruct Hr as [-> He]. split; [apply sameButURLs_refl|]. by apply Exists_cons_hd.
Qed.

(** The mount effect always completes, clears the loading flag and stores
    nothing; it replaces the collection only when [getAllMedia] resolves
    with records and an object URL is had for each. *)
Lemma run_loadPersistedMedia (w : World) :
  exists w', run useMediaCapture.loadPersistedMedia w = (Resolved tt, w') /\
    isLoading w' = false /\
    revoked w' = revoked w /\
    MediaDatabase.contents (mediaDatabase w') = MediaDatabase.contents (mediaDatabase w) /\
    match (MediaDatabase.getAllMedia (mediaDatabase w)).1 with
    | Rejected _ => capturedMedia w' = capturedMedia w
    | Resolved stored =>
        stored = MediaDatabase.records (mediaDatabase w) /\
        (capturedMedia w' = capturedMedia w /\
         (stored = [] \/
          Exists (fun r => createObjectURLError w (StoredMediaData.blob r) <> None) stored)
         \/
         exists l, Forall2 restoredFrom stored l /\
                   capturedMedia w' = Array_sort useMediaCapture.newestFirst l)
    end.
Proof.
  unfold useMediaCapture.loadPersistedMedia.
  rewrite run_tryFinally, run_tryCatch, run_pbind. simpl run at 1. cbv beta iota.
  rewrite run_pbind, run_await. unfold settle, issue.
  cbn [perform mediaDatabase set_console set_issued].
  destruct (MediaDatabase.getAllMedia (mediaDatabase w)) as [[stored|e] s'] eqn:Eg;
    apply getAllMedia_spec in Eg as [Hc Hst]; simpl fst.
  - destruct stored as [|r stored].
    + simpl. eexists. split; [reflexivity|]. simpl. repeat split; auto.
    + cbn [length Nat.ltb Nat.leb]. rewrite run_pbind.
      match goal with |- context [run (mapP _ _) ?w0] =>
        assert (Hm := run_mapP_restore (r :: stored) w0);
        destruct (run (mapP useMediaCapture.restore (r :: stored)) w0) as [[l|e] w1]
      end.
      * destruct Hm as (Hl & (Hcm & Hld & Hdb & Hrv & His & Herr) & Hall). simpl.
        eexists. split; [reflexivity|]. simpl.
        repeat split; auto; [by rewrite Hdb|]. right. by exists l.
      * destruct Hm as ((Hcm & Hld & Hdb & Hrv & His & Herr) & Hex). simpl.
        eexists. split; [reflexivity|]. simpl.
        repeat split; auto; [by rewrite Hdb|]. left. split; [exact Hcm|]. right.
        eapply Exists_impl; [exact Hex|]. simpl. intros x ->. discriminate.
  - simpl. eexists. split; [reflexivity|]. simpl. repeat split; auto.
Qed.

Lemma reload_spec (w : World) :
  capturedMedia (reload w) = [] /\ isLoading (reload w) = true /\
  revoked (reload w) = revoked w /\
  createObjectURLError (reload w) = createObjectURLError w /\
  MediaDatabase.contents (mediaDatabase (reload w)) = MediaDatabase.contents (mediaDatabase w).
Proof.
  unfold reload, MediaDatabase.init. simpl.
  destruct (openError (MediaDatabase.indexedDB (mediaDatabase w))); simpl;
    repeat split; reflexivity.
Qed.

(** Whatever [restoreOnInit] puts in the collection was read from the store. *)
Lemma restoreOnInit_from_store (w : World) (media : CapturedMedia.t) :
  media ∈ capturedMedia (restoreOnInit w).2 ->
  storedData media ∈ MediaDatabase.records (mediaDatabase w).
Proof.
  unfold restoreOnInit.
  destruct (run_loadPersistedMedia (reload w)) as (w' & -> & _ & _ & _ & Hcm).
  destruct (reload_spec w) as (Hnil & _ & _ & _ & Hc). simpl.
  destruct (MediaDatabase.getAllMedia (mediaDatabase (reload w))).1 as [stored|e].
  - destruct Hcm as [-> [[-> _]|(l & Hl & ->)]].
    + rewrite Hnil. by intros ?%elem_of_nil.
    + rewrite Array_sort_Permutation. intros Hin.
      unfold MediaDatabase.records in *. rewrite Hc in Hl.
      destruct (proj1 (list_elem_of_lookup _ _) Hin) as [i Hi].
      destruct (Forall2_lookup_r _ _ _ _ _ Hl Hi) as (r & Hr & Hrm & _).
      rewrite Hrm. by eapply list_elem_of_lookup_2.
  - rewrite Hcm, Hnil. by intros ?%elem_of_nil.
Qed.

(** A store that holds records of distinct timestamps is restored newest
    first. *)
Lemma restoreOnInit_descending (w : World) :
  NoDup (StoredMediaData.timestamp <$> MediaDatabase.records (mediaDatabase w)) ->
  descending (capturedMedia (restoreOnInit w).2).
Proof.
  intros Hnd. unfold restoreOnInit.
  destruct (run_loadPersistedMedia (reload w)) as (w' & -> & _ & _ & _ & Hcm).
  destruct (reload_spec w) as (Hnil & _ & _ & _ & Hc). simpl.
  destruct (MediaDatabase.getAllMedia (mediaDatabase (reload w))).1 as [stored|e].
  - destruct Hcm as [-> [[-> _]|(l & Hl & ->)]].
    + rewrite Hnil. constructor.
    + apply newestFirst_descending.
      unfold MediaDatabase.records in *. rewrite Hc in Hl.
      replace (CapturedMedia.timestamp <$> l)
        with (StoredMediaData.timestamp <$> (snd <$> inKeyOrder
                (MediaDatabase.contents (mediaDatabase w)))); [exact Hnd|].
      clear Hnd. induction Hl as [|r m rs' l' (Hrm & _) _ IH]; [reflexivity|].
      rewrite !fmap_cons, IH. f_equal. by rewrite <- Hrm.
  - rewrite Hcm, Hnil. constructor.
Qed.

(** When the read succeeds and an object URL is had for every blob, the
    collection restored holds exactly the records of the store. *)
Lemma restoreOnInit_complete (w : World) :
  is_resolved (MediaDatabase.getAllMedia (mediaDatabase (reload w))).1 = true ->
  (forall b, createObjectURLError w b = None) ->
  storedData <$> capturedMedia (restoreOnInit w).2 ≡ₚ MediaDatabase.records (mediaDatabase w).
Proof.
  intros Hres Hurl. unfold restoreOnInit.
  destruct (run_loadPersistedMedia (reload w)) as (w' & -> & _ & _ & _ & Hcm).
  destruct (reload_spec w) as (Hnil & _ & _ & Herr & Hc). simpl.
  destruct (MediaDatabase.getAllMedia (mediaDatabase (reload w))).1 as [stored|e];
    [|discriminate].
  unfold MediaDatabase.records in *. rewrite Hc in Hcm.
  destruct Hcm as [-> [[-> [Hs|Hex]]|(l & Hl & ->)]].
  - by rewrite Hnil, Hs.
  - apply Exists_exists in Hex as (r & _ & Hr). rewrite Herr, Hurl in Hr. done.
  - rewrite Array_sort_Permutation.
    match goal with |- ?a ≡ₚ ?b => assert (a = b) as ->; [|reflexivity] end.
    clear Hres. induction Hl as [|r m rs' l' (Hrm & _) _ IH]; [reflexivity|].
    rewrite fmap_cons, IH. by f_equal.
Qed.

(** C2. Records of distinct timestamps, stored in whatever order into an
    empty store: restoring on init yields a collection strictly descending
    by timestamp, newest first.  (And it is the collection of all the records
    the store holds, when the read succeeds and every blob gets its URL.) *)
Theorem restoreOnInit_newest_first (rs : list StoredMediaData.t) (w : World) :
  emptyStore (mediaDatabase w) ->
  NoDup (StoredMediaData.timestamp <$> rs) ->
  let stored := set_mediaDatabase (storeAll rs (mediaDatabase w)) w in
  descending (capturedMedia (restoreOnInit stored).2) /\
  (is_resolved (MediaDatabase.getAllMedia (mediaDatabase (reload stored))).1 = true ->
   (forall b, createObjectURLError w b = None) ->
   storedData <$> capturedMedia (restoreOnInit stored).2
   ≡ₚ MediaDatabase.records (mediaDatabase stored)).
Proof.
  intros He Hnd stored. split.
  - apply restoreOnInit_descending. simpl. by apply storeAll_distinct.
  - intros Hres Hurl. by apply restoreOnInit_complete.
Qed.

Lemma restoreOnInit_newest_first_witness :
  let stored :=
    set_mediaDatabase
      (storeAll [videoB; photoC; photoA] (mediaDatabase (worldOn workingEngine)))
      (worldOn workingEngine) in
  descending (capturedMedia (restoreOnInit stored).2) /\
  (is_resolved (MediaDatabase.getAllMedia (mediaDatabase (reload stored))).1 = true ->
   (forall b, createObjectURLError (worldOn workingEngine) b = None) ->
   storedData <$> capturedMedia (restoreOnInit stored).2
   ≡ₚ MediaDatabase.records (mediaDatabase stored)).
Proof.
  apply (restoreOnInit_newest_first [videoB; photoC; photoA] (worldOn workingEngine)).
  - reflexivity.
  - apply (bool_decide_unpack _). vm_compute. exact I.
Defined.

(** The sample store is indeed restored in full: C, B, A. *)
Example restoreOnInit_sample :
  storedData <$>
    capturedMedia
      (restoreOnInit
         (set_mediaDatabase
            (storeAll [videoB; photoC; photoA] (mediaDatabase (worldOn workingEngine)))
            (worldOn workingEngine))).2
  = [photoC; videoB; photoA].
Proof. vm_compute. reflexivity. Qed.

(** C3. When the read of the store fails during [restoreOnInit], the
    collection is left empty, the loading flag is cleared all the same, and
    [restoreOnInit] completes without an error. *)
Theorem restoreOnInit_read_failure (w : World) (e : Thrown) :
  (MediaDatabase.getAllMedia (mediaDatabase (reload w))).1 = Rejected e ->
  (restoreOnInit w).1 = Resolved tt /\
  capturedMedia (restoreOnInit w).2 = [] /\
  isLoading (restoreOnInit w).2 = false.
Proof.
  intros Hrej. unfold restoreOnInit.
  destruct (run_loadPersistedMedia (reload w)) as (w' & -> & Hld & _ & _ & Hcm).
  rewrite Hrej in Hcm. destruct (reload_spec w) as (Hnil & _). simpl.
  rewrite Hcm, Hnil. auto.
Qed.

Lemma restoreOnInit_read_failure_witness :
  (restoreOnInit (worldOn unreadableEngine)).1 = Resolved tt /\
  capturedMedia (restoreOnInit (worldOn unreadableEngine)).2 = [] /\
  isLoading (restoreOnInit (worldOn unreadableEngine)).2 = false.
Proof.
  apply (restoreOnInit_read_failure (worldOn unreadableEngine) readFailed).
  reflexivity.
Defined.

(** ** [addMedia] *)

Lemma settle_spec (c : MediaDbCall) (w : World) :
  settle c w = ((perform c (mediaDatabase w)).1,
                set_mediaDatabase (perform c (mediaDatabase w)).2 w).
Proof. unfold settle. by destruct (perform c (mediaDatabase w)). Qed.

(** C1, as the specification has it, fails: with [addMedia(mediaA)] suspended
    on its [put], the collection is still empty. *)
Lemma addMedia_not_visible_while_put_pending :
  isPending (start (useMediaCapture.addMedia mediaA) (worldOn workingEngine)).1 = true /\
  ~ visibleAtHead mediaA (start (useMediaCapture.addMedia mediaA) (worldOn workingEngine)).2.
Proof.
  split; [reflexivity|]. intros (m & Hm & _). vm_compute in Hm. discriminate.
Qed.

(** C1, amended. [addMedia(media)] first calls [storeMedia] and suspends,
    the collection untouched; when the [put] settles, whether it succeeded
    or failed and whatever the collection has become by then, [media] is
    prepended to it (with its [indexedDbId] when the [put] succeeded) and
    [addMedia] completes without an error. *)
Theorem addMedia_prepends_once_put_settles (media : CapturedMedia.t) (w : World) :
  exists k,
    start (useMediaCapture.addMedia media) w
      = (Pending (StoreMedia (storedData media)) k, issue (StoreMedia (storedData media)) w) /\
    capturedMedia (issue (StoreMedia (storedData media)) w) = capturedMedia w /\
    forall w2 : World,
      (resume (StoreMedia (storedData media)) k w2).1 = Done (Resolved tt) /\
      capturedMedia (resume (StoreMedia (storedData media)) k w2).2
      = match (MediaDatabase.storeMedia (storedData media) (mediaDatabase w2)).1 with
        | Resolved indexedDbId =>
            CapturedMedia.with_indexedDbId media indexedDbId :: capturedMedia w2
        | Rejected _ => media :: capturedMedia w2
        end.
Proof.
  eexists. split; [reflexivity|]. split; [reflexivity|].
  intros w2. unfold resume. rewrite settle_spec. cbn [perform].
  destruct (MediaDatabase.storeMedia (storedData media) (mediaDatabase w2)) as [[i|e] s'];
    split; reflexivity.
Qed.

Lemma run_addMedia (media : CapturedMedia.t) (w : World) :
  exists w', run (useMediaCapture.addMedia media) w = (Resolved tt, w') /\
    revoked w' = revoked w /\
    mediaDatabase w' = (MediaDatabase.storeMedia (storedData media) (mediaDatabase w)).2 /\
    capturedMedia w'
    = match (MediaDatabase.storeMedia (storedData media) (mediaDatabase w)).1 with
      | Resolved indexedDbId =>
          CapturedMedia.with_indexedDbId media indexedDbId :: capturedMedia w
      | Rejected _ => media :: capturedMedia w
      end.
Proof.
  unfold useMediaCapture.addMedia. cbn [tryCatch pbind await run].
  rewrite settle_spec. cbn [perform issue mediaDatabase set_issued].
  change (StoredMediaData.mk _ _ _ _ _) with (storedData media).
  destruct (MediaDatabase.storeMedia (storedData media) (mediaDatabase w)) as [[i|e] s'];
    simpl; eexists; repeat split; reflexivity.
Qed.

(** C4. When the [put] of [addMedia(media)] fails, [media] is prepended to
    the collection all the same and [addMedia] completes without an error;
    a record that was not in the store before is not in the collection that
    a later [restoreOnInit] builds. *)
Theorem addMedia_survives_put_failure (media : CapturedMedia.t) (w : World) (e : Thrown) :
  (MediaDatabase.storeMedia (storedData media) (mediaDatabase w)).1 = Rejected e ->
  (forall r, r ∈ MediaDatabase.records (mediaDatabase w) ->
             StoredMediaData.id r <> CapturedMedia.id media) ->
  (run (useMediaCapture.addMedia media) w).1 = Resolved tt /\
  capturedMedia (run (useMediaCapture.addMedia media) w).2 = media :: capturedMedia w /\
  forall m, m ∈ capturedMedia (restoreOnInit (run (useMediaCapture.addMedia media) w).2).2 ->
            CapturedMedia.id m <> CapturedMedia.id media.
Proof.
  intros Hrej Hfresh.
  destruct (run_addMedia media w) as (w' & -> & _ & Hdb & Hcm). simpl.
  rewrite Hrej in Hcm. split; [reflexivity|]. split; [exact Hcm|].
  intros m Hm%restoreOnInit_from_store.
  destruct (MediaDatabase.storeMedia (storedData media) (mediaDatabase w)) as [o s'] eqn:Es.
  simpl in Hrej, Hdb. subst o. apply storeMedia_spec in Es.
  unfold MediaDatabase.records in Hm, Hfresh. rewrite Hdb, Es in Hm.
  apply (Hfresh _ Hm).
Qed.

Lemma addMedia_survives_put_failure_witness :
  (run (useMediaCapture.addMedia mediaA) (worldOn readOnlyEngine)).1 = Resolved tt /\
  capturedMedia (run (useMediaCapture.addMedia mediaA) (worldOn readOnlyEngine)).2
    = mediaA :: capturedMedia (worldOn readOnlyEngine) /\
  forall m,
    m ∈ capturedMedia
          (restoreOnInit (run (useMediaCapture.addMedia mediaA) (worldOn readOnlyEngine)).2).2 ->
    CapturedMedia.id m <> CapturedMedia.id mediaA.
Proof.
  apply (addMedia_survives_put_failure mediaA (worldOn readOnlyEngine) quotaExceeded).
  - reflexivity.
  - vm_compute. intros r Hr. by apply elem_of_nil in Hr.
Defined.

(** ** [removeMedia] *)

Section Lists.
Context {A B : Type} (f : A -> B).

(** Where [f] takes no value twice, the value names the element. *)
Lemma NoDup_fmap_names (l : list A) (x y : A) :
  NoDup (f <$> l) -> x ∈ l -> y ∈ l -> f x = f y -> x = y.
Proof.
  induction l as [|a l IH]; intros Hnd Hx Hy Heq; [by apply elem_of_nil in Hx|].
  rewrite fmap_cons in Hnd. apply NoDup_cons in Hnd as [Ha Hnd].
  apply elem_of_cons in Hx as [->|Hx]; apply elem_of_cons in Hy as [->|Hy]; auto.
  - exfalso. apply Ha. rewrite Heq. by apply list_elem_of_fmap_2.
  - exfalso. apply Ha. rewrite <- Heq. by apply list_elem_of_fmap_2.
Qed.
End Lists.

Lemma find_id_None (id : string) (l : list CapturedMedia.t) :
  id ∉ CapturedMedia.id <$> l ->
  List.find (fun m => String.eqb (CapturedMedia.id m) id) l = None /\
  List.filter (fun m => negb (String.eqb (CapturedMedia.id m) id)) l = l.
Proof.
  induction l as [|m l IH]; intros Hnotin; [done|].
  rewrite fmap_cons, not_elem_of_cons in Hnotin. destruct Hnotin as [Hne Hnotin].
  destruct (IH Hnotin) as [Hfind Hfilter]. simpl.
  destruct (String.eqb_spec (CapturedMedia.id m) id) as [Heq|_]; [by subst|].
  simpl. by rewrite Hfind, Hfilter.
Qed.

Lemma find_id_Some (id : string) (l : list CapturedMedia.t) (m : CapturedMedia.t) :
  List.find (fun m => String.eqb (CapturedMedia.id m) id) l = Some m ->
  m ∈ l /\ CapturedMedia.id m = id.
Proof.
  intros [Hin Heq]%find_some. split; [by apply list_elem_of_In|].
  by apply String.eqb_eq.
Qed.

Lemma find_id_is_Some (id : string) (l : list CapturedMedia.t) (m : CapturedMedia.t) :
  m ∈ l -> CapturedMedia.id m = id ->
  is_Some (List.find (fun m => String.eqb (CapturedMedia.id m) id) l).
Proof.
  intros Hin Hid.
  destruct (List.find (fun m => String.eqb (CapturedMedia.id m) id) l) eqn:E; [by eexists|].
  apply list_elem_of_In in Hin. apply (find_none _ _ E) in Hin.
  apply String.eqb_neq in Hin. done.
Qed.

Lemma filter_id_gone (id : string) (l : list CapturedMedia.t) (m : CapturedMedia.t) :
  m ∈ List.filter (fun m => negb (String.eqb (CapturedMedia.id m) id)) l ->
  CapturedMedia.id m <> id.
Proof.
  intros [_ Hne]%list_elem_of_In%filter_In.
  apply negb_true_iff, String.eqb_neq in Hne. exact Hne.
Qed.

(** What [removeMedia(id)] does, by what [find] finds. *)
Lemma run_removeMedia (id : string) (w : World) :
  exists w', run (useMediaCapture.removeMedia id) w = (Resolved tt, w') /\
    capturedMedia w'
    = List.filter (fun m => negb (String.eqb (CapturedMedia.id m) id)) (capturedMedia w) /\
    match List.find (fun m => String.eqb (CapturedMedia.id m) id) (capturedMedia w) with
    | None => revoked w' = revoked w /\ issued w' = issued w /\
              mediaDatabase w' = mediaDatabase w
    | Some mediaToRemove =>
        revoked w'
        = revoked w ++ (if startsWith "blob:" (CapturedMedia.url mediaToRemove)
                        then [CapturedMedia.url mediaToRemove] else []) /\
        issued w'
        = issued w ++ match useMediaCapture.truthy (CapturedMedia.indexedDbId mediaToRemove) with
                      | Some indexedDbId => [DeleteMedia indexedDbId]
                      | None => []
                      end
    end.
Proof.
  unfold useMediaCapture.removeMedia, useMediaCapture.removeUpdater, setCapturedMedia.
  cbn [pbind sync run handle].
  destruct (List.find _ (capturedMedia w)) as [m|]; cycle 1.
  { simpl. eexists. repeat split; reflexivity. }
  unfold useMediaCapture.revokeIfBlob.
  destruct (startsWith "blob:" (CapturedMedia.url m));
    destruct (useMediaCapture.truthy (CapturedMedia.indexedDbId m)) as [i|];
    cbn [pbind sync run handle]; rewrite ?settle_spec; cbn [perform];
    try destruct (MediaDatabase.deleteMedia i _) as [[[]|e] s'];
    simpl; eexists; rewrite ?app_nil_r; repeat split; reflexivity.
Qed.

(** An updater that only computes may be called any number of times, the
    outcome is that of one call: the updaters of [addMedia] are of this
    kind. *)
Lemma setCapturedMediaRepeated_pure (extra : nat)
      (f : list CapturedMedia.t -> list CapturedMedia.t) (w : World) :
  run (setCapturedMediaRepeated extra (fun prev => Ret (f prev))) w
  = run (setCapturedMedia (fun prev => Ret (f prev))) w.
Proof.
  unfold setCapturedMediaRepeated, setCapturedMedia. cbn [pbind sync run handle].
  induction extra as [|extra IH]; [reflexivity|exact IH].
Qed.

(** [removeMedia(id)] is the case of an updater called once. *)
Lemma removeMediaRepeated_once (id : string) :
  useMediaCapture.removeMediaRepeated 0 id = useMediaCapture.removeMedia id.
Proof. reflexivity. Qed.

(** What one call of the updater of [removeMedia(id)] does. *)
Lemma run_removeUpdater (id : string) (prev : list CapturedMedia.t) (w : World) :
  exists w', run (useMediaCapture.removeUpdater id prev) w
             = (Resolved (List.filter (fun m => negb (String.eqb (CapturedMedia.id m) id)) prev),
                w') /\
    capturedMedia w' = capturedMedia w /\
    match List.find (fun m => String.eqb (CapturedMedia.id m) id) prev with
    | None => w' = w
    | Some mediaToRemove =>
        revoked w'
        = revoked w ++ (if startsWith "blob:" (CapturedMedia.url mediaToRemove)
                        then [CapturedMedia.url mediaToRemove] else []) /\
        issued w'
        = issued w ++ match useMediaCapture.truthy (CapturedMedia.indexedDbId mediaToRemove) with
                      | Some indexedDbId => [DeleteMedia indexedDbId]
                      | None => []
                      end
    end.
Proof.
  unfold useMediaCapture.removeUpdater.
  destruct (List.find _ prev) as [m|]; cycle 1.
  { simpl. eexists. repeat split; reflexivity. }
  unfold useMediaCapture.revokeIfBlob.
  destruct (startsWith "blob:" (CapturedMedia.url m));
    destruct (useMediaCapture.truthy (CapturedMedia.indexedDbId m)) as [i|];
    cbn [pbind sync run handle]; rewrite ?settle_spec; cbn [perform];
    try destruct (MediaDatabase.deleteMedia i _) as [[[]|e] s'];
    simpl; eexists; rewrite ?app_nil_r; repeat split; reflexivity.
Qed.

(** What the calls of that updater do together: each call revokes and
    deletes again. *)
Lemma run_callUpdater_remove (extra : nat) (id : string) (prev : list CapturedMedia.t)
      (w : World) :
  exists w', run (callUpdater extra (useMediaCapture.removeUpdater id) prev) w
             = (Resolved (List.filter (fun m => negb (String.eqb (CapturedMedia.id m) id)) prev),
                w') /\
    capturedMedia w' = capturedMedia w /\
    match List.find (fun m => String.eqb (CapturedMedia.id m) id) prev with
    | None => w' = w
    | Some mediaToRemove =>
        revoked w'
        = revoked w ++ (if startsWith "blob:" (CapturedMedia.url mediaToRemove)
                        then replicate (S extra) (CapturedMedia.url mediaToRemove) else []) /\
        issued w'
        = issued w ++ match useMediaCapture.truthy (CapturedMedia.indexedDbId mediaToRemove) with
                      | Some indexedDbId => replicate (S extra) (DeleteMedia indexedDbId)
                      | None => []
                      end
    end.
Proof.
  revert w. induction extra as [|extra IH]; intros w; cbn [callUpdater].
  { apply run_removeUpdater. }
  rewrite run_pbind.
  destruct (run_removeUpdater id prev w) as (w1 & -> & Hcm1 & H1).
  destruct (IH w1) as (w2 & -> & Hcm2 & H2).
  exists w2. split; [reflexivity|]. split; [congruence|].
  destruct (List.find _ prev) as [m|]; [|congruence].
  destruct H1 as [Hrv1 His1], H2 as [Hrv2 His2]. rewrite Hrv2, His2, Hrv1, His1.
  destruct (startsWith "blob:" (CapturedMedia.url m));
    destruct (useMediaCapture.truthy (CapturedMedia.indexedDbId m));
    by rewrite <- !app_assoc.
Qed.

(** What [removeMedia(id)] does when React calls its updater [extra] more
    times. *)
Lemma run_removeMediaRepeated (extra : nat) (id : string) (w : World) :
  exists w', run (useMediaCapture.removeMediaRepeated extra id) w = (Resolved tt, w') /\
    capturedMedia w'
    = List.filter (fun m => negb (String.eqb (CapturedMedia.id m) id)) (capturedMedia w) /\
    match List.find (fun m => String.eqb (CapturedMedia.id m) id) (capturedMedia w) with
    | None => revoked w' = revoked w /\ issued w' = issued w /\
              mediaDatabase w' = mediaDatabase w
    | Some mediaToRemove =>
        revoked w'
        = revoked w ++ (if startsWith "blob:" (CapturedMedia.url mediaToRemove)
                        then replicate (S extra) (CapturedMedia.url mediaToRemove) else []) /\
        issued w'
        = issued w ++ match useMediaCapture.truthy (CapturedMedia.indexedDbId mediaToRemove) with
                      | Some indexedDbId => replicate (S extra) (DeleteMedia indexedDbId)
                      | None => []
                      end
    end.
Proof.
  unfold useMediaCapture.removeMediaRepeated, setCapturedMediaRepeated.
  cbn [pbind sync run handle]. rewrite run_pbind.
  destruct (run_callUpdater_remove extra id (capturedMedia w) w) as (w1 & -> & Hcm & H).
  cbn [sync run handle]. eexists. split; [reflexivity|]. split; [reflexivity|].
  destruct (List.find _ (capturedMedia w)) as [m|]; [exact H|]. by subst w1.
Qed.




(** On the sample world, React calling the updater once: the handle of A is
    gone, its object URL revoked once and [deleteMedia] called once. *)
Example removeMedia_once :
  let w := worldAB workingEngine in
  let w' := (run (useMediaCapture.removeMedia "photo_100_x") w).2 in
  run (useMediaCapture.removeMediaRepeated 0 "photo_100_x") w
  = run (useMediaCapture.removeMedia "photo_100_x") w /\
  CapturedMedia.id <$> capturedMedia w' = ["video_200_y"] /\
  revoked w' = revoked w ++ ["blob:media/a"] /\
  issued w' = issued w ++ [DeleteMedia "photo_100_x"].
Proof. vm_compute. auto. Qed.

(** C10. [removeMedia(id)] for an [id] that no handle of the collection
    has: the collection is as it was, no object URL is revoked, and no call
    is made on the store. *)
Theorem removeMedia_absent_id (id : string) (w : World) :
  id ∉ CapturedMedia.id <$> capturedMedia w ->
  let w' := (run (useMediaCapture.removeMedia id) w).2 in
  (run (useMediaCapture.removeMedia id) w).1 = Resolved tt /\
  capturedMedia w' = capturedMedia w /\
  revoked w' = revoked w /\
  issued w' = issued w /\
  mediaDatabase w' = mediaDatabase w.
Proof.
  intros Hnotin w'. subst w'.
  destruct (run_removeMedia id w) as (w' & -> & Hcm & Hfx). simpl.
  destruct (find_id_None id (capturedMedia w) Hnotin) as [Hfind Hfilter].
  rewrite Hfind in Hfx. rewrite Hfilter in Hcm. tauto.
Qed.

Lemma removeMedia_absent_id_witness :
  let w' := (run (useMediaCapture.removeMedia "photo_300_z") (worldAB workingEngine)).2 in
  (run (useMediaCapture.removeMedia "photo_300_z") (worldAB workingEngine)).1 = Resolved tt /\
  capturedMedia w' = capturedMedia (worldAB workingEngine) /\
  revoked w' = revoked (worldAB workingEngine) /\
  issued w' = issued (worldAB workingEngine) /\
  mediaDatabase w' = mediaDatabase (worldAB workingEngine).
Proof.
  apply (removeMedia_absent_id "photo_300_z" (worldAB workingEngine)).
  apply (bool_decide_unpack _). vm_compute. exact I.
Defined.

(** The scenario of the specification: A then B captured, the collection is
    B, A; A removed, it is B and the store holds B alone; after a reload the
    collection restored is B. *)
Example capture_remove_reload :
  let w1 := worldAB workingEngine in
  let w2 := (run (useMediaCapture.removeMedia "photo_100_x") w1).2 in
  let w3 := (restoreOnInit w2).2 in
  CapturedMedia.id <$> capturedMedia w1 = ["video_200_y"; "photo_100_x"] /\
  CapturedMedia.id <$> capturedMedia w2 = ["video_200_y"] /\
  MediaDatabase.records (mediaDatabase w2) = [videoB] /\
  CapturedMedia.id <$> capturedMedia w3 = ["video_200_y"] /\
  isLoading w3 = false.
Proof. vm_compute. auto 10. Qed.

(** ** [clearAllMedia] *)

Lemma clearAllMedia_spec (s s' : MediaDatabase.State) (o : Settled unit) :
  MediaDatabase.clearAllMedia s = (o, s') ->
  match o with
  | Resolved _ => MediaDatabase.contents s' = ∅
  | Rejected _ => MediaDatabase.contents s' = MediaDatabase.contents s
  end.
Proof.
  unfold MediaDatabase.clearAllMedia, MediaDatabase.bind at 1.
  destruct (MediaDatabase.ensureDB s) as [[[]|e0] s0] eqn:E0;
    apply ensureDB_frame in E0 as (Hc & _ & _).
  - unfold MediaDatabase.bind at 1.
    destruct (MediaDatabase.request IDBClear s0) as [[res|e1] s1] eqn:E1;
      apply request_spec in E1 as (_ & _ & H1).
    + unfold MediaDatabase.ret. intros [= <- <-]. simpl in H1. by injection H1 as _ ->.
    + intros [= <- <-]. by subst s1.
  - intros [= <- <-]. exact Hc.
Qed.

Lemma run_forEach_revokeIfBlob (l : list CapturedMedia.t) (w : World) :
  run (forEach l useMediaCapture.revokeIfBlob) w
  = (Resolved tt, set_revoked (revoked w ++ blobURLs l) w).
Proof.
  revert w. induction l as [|m l IH]; intros w; cbn [forEach].
  - simpl. unfold blobURLs. simpl. rewrite app_nil_r. by destruct w.
  - rewrite run_pbind. unfold useMediaCapture.revokeIfBlob at 1, blobURLs.
    cbn [List.filter]. destruct (startsWith "blob:" (CapturedMedia.url m)); simpl.
    + rewrite IH. simpl. unfold blobURLs. by rewrite <- app_assoc.
    + rewrite IH. reflexivity.
Qed.

Lemma start_pbind {A B} (p : Prog A) (f : A -> Prog B) (w : World) :
  start (pbind p f) w =
  match start p w with
  | (Done (Resolved a), w') => start (f a) w'
  | (Done (Rejected e), w') => (Done (Rejected e), w')
  | (Pending c k, w') => (Pending c (fun o => pbind (k o) f), w')
  end.
Proof.
  revert w. induction p as [a|e|X op k IH|c k IH]; intros w; simpl; try reflexivity.
  destruct (handle op w) as [x w']. apply IH.
Qed.

Lemma start_forEach_revokeIfBlob (l : list CapturedMedia.t) (w : World) :
  start (forEach l useMediaCapture.revokeIfBlob) w
  = (Done (Resolved tt), set_revoked (revoked w ++ blobURLs l) w).
Proof.
  revert w. induction l as [|m l IH]; intros w; cbn [forEach].
  - simpl. unfold blobURLs. simpl. rewrite app_nil_r. by destruct w.
  - rewrite start_pbind. unfold useMediaCapture.revokeIfBlob at 1, blobURLs.
    cbn [List.filter]. destruct (startsWith "blob:" (CapturedMedia.url m)); simpl.
    + rewrite IH. simpl. unfold blobURLs. by rewrite <- app_assoc.
    + rewrite IH. reflexivity.
Qed.

(** [clearAllMedia()] run without anything else happening meanwhile, by a
    callback that closed over [closure]: whether the [clear] of the store
    succeeds or fails, it completes without an error and the collection is
    empty; the object URLs revoked are those of [closure].  The store is
    empty when its [clear] succeeded, and as it was when it failed. *)
Lemma run_clearAllMedia (closure : list CapturedMedia.t) (w : World) :
  let w' := (run (useMediaCapture.clearAllMedia closure) w).2 in
  (run (useMediaCapture.clearAllMedia closure) w).1 = Resolved tt /\
  capturedMedia w' = [] /\
  revoked w' = revoked w ++ blobURLs closure /\
  match (MediaDatabase.clearAllMedia (mediaDatabase w)).1 with
  | Resolved _ => MediaDatabase.records (mediaDatabase w') = []
  | Rejected _ =>
      MediaDatabase.contents (mediaDatabase w') = MediaDatabase.contents (mediaDatabase w)
  end.
Proof.
  unfold useMediaCapture.clearAllMedia.
  rewrite run_pbind, run_tryCatch, run_pbind, run_await, settle_spec.
  cbn [perform issue mediaDatabase set_issued].
  destruct (MediaDatabase.clearAllMedia (mediaDatabase w)) as [[[]|e] s'] eqn:Ec;
    apply clearAllMedia_spec in Ec; simpl fst; simpl snd; cbv beta iota;
    cbn [run sync handle]; cbv beta iota;
    rewrite run_pbind, run_forEach_revokeIfBlob; simpl.
  - repeat split. unfold MediaDatabase.records. by rewrite Ec.
  - repeat split. exact Ec.
Qed.

(** [clearAllMedia()] as the event loop sees it.  It calls [clear] on the
    store and suspends, the collection untouched.  When that promise
    settles, in whatever world [w2] the page is by then, it completes
    without an error and leaves the collection empty; the object URLs it
    revokes are those of the collection it closed over when the callback
    was created, not those of the collection of [w2]. *)
Lemma clearAllMedia_once_clear_settles (closure : list CapturedMedia.t) (w : World) :
  exists k,
    start (useMediaCapture.clearAllMedia closure) w
      = (Pending ClearAllMedia k, issue ClearAllMedia w) /\
    capturedMedia (issue ClearAllMedia w) = capturedMedia w /\
    forall w2 : World,
      (resume ClearAllMedia k w2).1 = Done (Resolved tt) /\
      capturedMedia (resume ClearAllMedia k w2).2 = [] /\
      revoked (resume ClearAllMedia k w2).2 = revoked w2 ++ blobURLs closure.
Proof.
  eexists. split; [reflexivity|]. split; [reflexivity|].
  intros w2. unfold resume. rewrite settle_spec. cbn [perform].
  destruct (MediaDatabase.clearAllMedia (mediaDatabase w2)) as [[[]|e] s'];
    cbn [fst snd tryCatch pbind sync start handle];
    rewrite start_pbind, start_forEach_revokeIfBlob; simpl; repeat split.
Qed.


(** Both ways on the sample worlds: the store cleared, the store refusing. *)
Example clearAllMedia_store_clears :
  let w' := (run (useMediaCapture.clearAllMedia (capturedMedia (worldAB workingEngine)))
                 (worldAB workingEngine)).2 in
  capturedMedia w' = [] /\ revoked w' = ["blob:media/b"; "blob:media/a"] /\
  MediaDatabase.records (mediaDatabase w') = [].
Proof. vm_compute. auto. Qed.

Example clearAllMedia_store_refuses :
  let w := failingFrom (fun _ => Some quotaExceeded) (worldAB workingEngine) in
  let w' := (run (useMediaCapture.clearAllMedia (capturedMedia w)) w).2 in
  capturedMedia w' = [] /\ revoked w' = ["blob:media/b"; "blob:media/a"] /\
  length (MediaDatabase.records (mediaDatabase w')) = 2%nat.
Proof. vm_compute. auto. Qed.

(** ** [createMediaFromBlob] *)

Lemma string_app_assoc (a b c : string) : (a +:+ b) +:+ c = a +:+ (b +:+ c).
Proof.
  induction a as [|x a IH]; [reflexivity|].
  change (String x ((a +:+ b) +:+ c) = String x (a +:+ (b +:+ c))). by rewrite IH.
Qed.

Lemma filenameFor_extension (type : CameraMode) (iso : string) :
  endsWith ("." +:+ useMediaCapture.extension type) (useMediaCapture.filenameFor type iso).
Proof.
  exists (CameraMode_str type +:+ "_" +:+ replaceColonDot (slice0 19 iso)).
  unfold useMediaCapture.filenameFor. by rewrite !string_app_assoc.
Qed.

(** C8. [createMediaFromBlob(blob, type)] returns a record and raises
    nothing, for every blob and kind (the clock giving time values, as
    [Date.now()] does): the record is of that kind and blob; its [url] is
    the empty string when [URL.createObjectURL] throws, and an object URL
    otherwise; its [filename] is a function of the kind and of the record's
    [timestamp], ending in [.jpg] for a photo and [.webm] for a video. *)
Theorem createMediaFromBlob_fails_soft (blob : Blob) (type : CameraMode) (w : World) :
  clockValid w ->
  exists media w',
    run (useMediaCapture.createMediaFromBlob blob type) w = (Resolved media, w') /\
    CapturedMedia.type media = type /\
    CapturedMedia.blob media = blob /\
    CapturedMedia.url media
    = match createObjectURLError w blob with
      | Some _ => ""
      | None => objectURL (objectURLs w)
      end /\
    CapturedMedia.filename media
    = useMediaCapture.filenameFor type (JSDate.isoString (CapturedMedia.timestamp media)) /\
    endsWith (match type with photo => ".jpg" | video => ".webm" end)
             (CapturedMedia.filename media).
Proof.
  intros Hclock. unfold useMediaCapture.createMediaFromBlob.
  assert (Hext : forall iso,
             endsWith (match type with photo => ".jpg" | video => ".webm" end)
                      (useMediaCapture.filenameFor type iso)).
  { intros iso. destruct (filenameFor_extension type iso) as [stem Hstem].
    exists stem. rewrite Hstem. by destruct type. }
  unfold clockValid in Hclock. destruct w as [cm ld db n err rv clock nc rnd nr con iss].
  cbn -[JSDate.toISOString useMediaCapture.filenameFor Z_str] in *.
  destruct (err blob) as [e|];
    cbn -[JSDate.toISOString useMediaCapture.filenameFor Z_str];
    unfold JSDate.toISOString; rewrite Hclock;
    cbn -[JSDate.isoString useMediaCapture.filenameFor Z_str];
    do 2 eexists; (split; [reflexivity|]);
    cbn -[JSDate.isoString useMediaCapture.filenameFor Z_str]; repeat split; apply Hext.
Qed.

Lemma createMediaFromBlob_fails_soft_witness :
  exists media w',
    run (useMediaCapture.createMediaFromBlob [] video) worldNoURLs = (Resolved media, w') /\
    CapturedMedia.type media = video /\
    CapturedMedia.blob media = [] /\
    CapturedMedia.url media = "" /\
    CapturedMedia.filename media
    = useMediaCapture.filenameFor video (JSDate.isoString (CapturedMedia.timestamp media)) /\
    endsWith ".webm" (CapturedMedia.filename media).
Proof.
  apply (createMediaFromBlob_fails_soft [] video worldNoURLs).
  intros n. reflexivity.
Defined.

(** The record of that world, in full. *)
Example createMediaFromBlob_sample :
  (run (useMediaCapture.createMediaFromBlob [] video) worldNoURLs).1
  = Resolved (CapturedMedia.mk "video_1700000000000_k3j9x0q1z" video "" [] 1700000000000
                               "video_2023-11-14T22-13-20.webm" None).
Proof. vm_compute. reflexivity. Qed.

(** ** [detectFruits] *)

Section DetectFruits.
Import FruitDetector FruitContract.

Lemma get_truthy (v : JSValue) (p : string) :
  truthy v = true -> get v p = Resolved (prop v p).
Proof. unfold prop. destruct v; simpl; intros H; try discriminate; reflexivity. Qed.

(** The filter callback, where it does not throw, decides [checked]. *)
Lemma keepFruit_checked (fruit : JSValue) (keep : bool) :
  keepFruit fruit = Resolved keep -> keep = checked fruit.
Proof.
  unfold keepFruit, checked.
  assert (Hget : forall p, get fruit p = Resolved (prop fruit p) \/
                           exists e, forall q, get fruit q = Rejected (e q)).
  { intros p. unfold prop. destruct fruit; simpl; eauto. }
  destruct (Hget "name") as [Hname|[e He]]; [|by rewrite He].
  rewrite Hname. cbn [sbind].
  destruct (truthy (prop fruit "name")); cbn [negb andb]; [|by intros [= <-]].
  destruct (Hget "confidence") as [Hconf|[e He]]; [|by rewrite He in Hname].
  rewrite Hconf. cbn [sbind].
  destruct (prop fruit "confidence") as [| |b|c|s|l|o]; cbn [inUnit andb];
    try (by intros [= <-]).
  destruct (ge0 c); cbn [negb andb]; [|by intros [= <-]].
  destruct (le1 c); cbn [negb andb]; [|by intros [= <-]].
  destruct (Hget "boundingBox") as [Hbox|[e He]]; [|by rewrite He in Hname].
  rewrite Hbox. cbn [sbind].
  destruct (truthy (prop fruit "boundingBox")) eqn:Ebox; cbn [negb andb];
    [|by intros [= <-]].
  unfold numberAt. rewrite !(get_truthy _ _ Ebox). cbn [sbind].
  destruct (isNumber (prop (prop fruit "boundingBox") "ymin")); cbn [negb andb];
    [|by intros [= <-]].
  destruct (isNumber (prop (prop fruit "boundingBox") "xmin")); cbn [negb andb];
    [|by intros [= <-]].
  destruct (isNumber (prop (prop fruit "boundingBox") "ymax")); cbn [negb andb];
    [|by intros [= <-]].
  by intros [= <-].
Qed.

Lemma filterS_checked (l kept : list JSValue) :
  filterS keepFruit l = Resolved kept -> kept = List.filter checked l.
Proof.
  revert kept. induction l as [|x l IH]; intros kept; cbn [filterS List.filter].
  - by intros [= <-].
  - destruct (keepFruit x) as [keep|e] eqn:Ex; [|discriminate]. cbn [sbind].
    apply keepFruit_checked in Ex as <-.
    destruct (filterS keepFruit l) as [rest|e]; [|discriminate]. cbn [sbind].
    intros [= <-]. by rewrite (IH rest eq_refl).
Qed.

Lemma lookup_set_property (p : string) (v : JSValue) (properties : list (string * JSValue)) :
  lookup_property p (set_property p v properties) = v.
Proof.
  induction properties as [|[k v'] rest IH]; simpl.
  - by rewrite String.eqb_refl.
  - destruct (String.eqb k p) eqn:E; simpl; by rewrite E.
Qed.

(** A result comes from a reply that parsed, and holds the [fruits] of
    that reply that pass the filter. *)
Lemma detectFruits_filters (self : FruitDetector.t) (reply : ApiReply) (result : JSValue) :
  detectFruits self reply = Resolved result ->
  exists parsed, reply = ApiText (Some parsed) /\
                 fruitsOf result = List.filter checked (fruitsOf parsed).
Proof.
  unfold detectFruits.
  destruct (negb (isInitialized self) || negb (model self)); [discriminate|].
  destruct (detect reply) as [r|e] eqn:Ed; [|discriminate]. intros [= <-].
  unfold detect in Ed.
  destruct reply as [e|[parsed|]]; cbn [sbind] in Ed; try discriminate.
  exists parsed. split; [reflexivity|].
  destruct parsed as [| |b|n|s|l|properties]; cbn [get sbind] in Ed; try discriminate.
  unfold fruitsOf at 2. cbn [get].
  destruct (lookup_property "fruits" properties) as [| |b|n|s|elements|o];
    try discriminate.
  destruct (filterS keepFruit elements) as [kept|e] eqn:Ef; [|discriminate].
  cbn [sbind] in Ed. injection Ed as <-.
  unfold fruitsOf, set. cbn [get]. rewrite lookup_set_property.
  by apply filterS_checked.
Qed.
End DetectFruits.

(** C9, as the specification has it, fails: the detector returns the banana,
    whose bounding box has [ymin = 5] and [ymax = 7]. *)
Lemma detectFruits_returns_box_outside_unit :
  exists result,
    FruitDetector.detectFruits FruitContract.ready FruitContract.sampleReply = Resolved result /\
    FruitContract.banana ∈ FruitDetector.fruitsOf result /\
    FruitContract.claimed FruitContract.banana = false.
Proof.
  eexists. split; [vm_compute; reflexivity|]. split; [|reflexivity].
  apply list_elem_of_In. simpl. auto.
Qed.

(** C9, amended. Every fruit of a result of [detectFruits] has a name, a
    confidence that is a number in [0,1], and a bounding box whose [ymin],
    [xmin], [ymax] and [xmax] are numbers; the fruits of the reply that do
    not are not in the result, and those that do are. *)
Theorem detectFruits_contract (self : FruitDetector.t) (reply : FruitDetector.ApiReply)
        (result : FruitDetector.JSValue) :
  FruitDetector.detectFruits self reply = Resolved result ->
  (forall fruit, fruit ∈ FruitDetector.fruitsOf result -> FruitContract.checked fruit = true) /\
  exists parsed,
    reply = FruitDetector.ApiText (Some parsed) /\
    forall fruit,
      fruit ∈ FruitDetector.fruitsOf result <->
      fruit ∈ FruitDetector.fruitsOf parsed /\ FruitContract.checked fruit = true.
Proof.
  intros (parsed & -> & Hf)%detectFruits_filters.
  assert (Hiff : forall fruit,
             fruit ∈ FruitDetector.fruitsOf result <->
             fruit ∈ FruitDetector.fruitsOf parsed /\ FruitContract.checked fruit = true).
  { intros fruit. rewrite Hf, !list_elem_of_In. apply filter_In. }
  split; [|by exists parsed].
  intros fruit Hin. by apply Hiff.
Qed.

Lemma detectFruits_contract_witness :
  (forall fruit,
     fruit ∈ FruitDetector.fruitsOf
               (FruitDetector.JSObject
                  [("fruits", FruitDetector.JSArray [FruitContract.apple; FruitContract.banana])]) ->
     FruitContract.checked fruit = true) /\
  exists parsed,
    FruitContract.sampleReply = FruitDetector.ApiText (Some parsed) /\
    forall fruit,
      fruit ∈ FruitDetector.fruitsOf
                (FruitDetector.JSObject
                   [("fruits", FruitDetector.JSArray [FruitContract.apple; FruitContract.banana])]) <->
      fruit ∈ FruitDetector.fruitsOf parsed /\ FruitContract.checked fruit = true.
Proof.
  apply (detectFruits_contract FruitContract.ready FruitContract.sampleReply).
  vm_compute. reflexivity.
Defined.

(** * More of the code *)

(** ** The durable store: availability, round trips, invariants *)

(** Case analysis on a method of [MediaDatabase] run in a given state: the
    connection held or not, the store there or not, the open and the request
    failing or not. *)
Ltac db_cases s :=
  let b := fresh "b" in
  let os := fresh "os" in
  let oe := fresh "oe" in
  let re := fresh "re" in
  destruct s as [b [os oe re]];
  unfold MediaDatabase.storeMedia, MediaDatabase.getAllMedia, MediaDatabase.deleteMedia,
    MediaDatabase.clearAllMedia, MediaDatabase.ensureDB, MediaDatabase.init,
    MediaDatabase.request, MediaDatabase.bind, MediaDatabase.ret, MediaDatabase.throw,
    MediaDatabase.contents, MediaDatabase.close, with_objectStore in *;
  cbn [MediaDatabase.db MediaDatabase.indexedDB objectStore openError requestError] in *;
  destruct b; [|destruct oe]; destruct os;
  cbn [MediaDatabase.db MediaDatabase.indexedDB objectStore openError requestError
       default IDB_apply fst snd] in *.

(** X1. While the database cannot be opened, every method of the store
    rejects with the error of [indexedDB.open] and changes nothing. *)
Theorem store_unavailable (c : MediaDbCall) (s : MediaDatabase.State) (e : Thrown) :
  MediaDatabase.db s = false ->
  openError (MediaDatabase.indexedDB s) = Some e ->
  perform c s = (Rejected e, s).
Proof.
  intros Hdb Hopen. destruct c; cbn [perform]; db_cases s;
    try discriminate; injection Hopen as ->; reflexivity.
Qed.

Lemma store_unavailable_witness :
  perform (StoreMedia photoA) (mediaDatabase (worldOn closedEngine))
  = (Rejected (ThrownError DOMException "SecurityError"),
     mediaDatabase (worldOn closedEngine)).
Proof.
  apply (store_unavailable (StoreMedia photoA) (mediaDatabase (worldOn closedEngine))
                           (ThrownError DOMException "SecurityError")); reflexivity.
Defined.

(** Whatever a method does, the engine keeps its disposition to fail, a
    connection is held on an existing store only, and records stay under
    their own [id]; a method that resolved has made the connection. *)
Lemma perform_invariants (c : MediaDbCall) (s : MediaDatabase.State) :
  let s' := (perform c s).2 in
  openError (MediaDatabase.indexedDB s') = openError (MediaDatabase.indexedDB s) /\
  requestError (MediaDatabase.indexedDB s') = requestError (MediaDatabase.indexedDB s) /\
  (connected s -> connected s') /\
  (keyedById s -> keyedById s') /\
  (is_resolved (perform c s).1 = true ->
   MediaDatabase.db s' = true /\ is_Some (objectStore (MediaDatabase.indexedDB s'))).
Proof.
  unfold connected, keyedById.
  destruct c as [r| |key|]; cbn [perform]; db_cases s;
    try destruct (re _) eqn:Ere; simpl in *;
    repeat split; try done; eauto;
    try (intros Hk k v; rewrite ?lookup_empty; try done).
  all: intros Hl; specialize (Hk k v).
  all: try (destruct (decide (StoredMediaData.id r = k)) as [<-|Hne];
            [rewrite lookup_insert_eq in Hl; by injection Hl as <-
            |rewrite lookup_insert_ne in Hl by done; rewrite ?lookup_empty in Hl; eauto;
             done]).
  all: destruct (decide (key = k)) as [<-|Hne];
    [by rewrite lookup_delete_eq in Hl|rewrite lookup_delete_ne in Hl by done; eauto].
Qed.

(** X2. Whatever calls are made on the store, in whatever order and whether
    they succeed or fail, a connection is only ever held on a database that
    has its object store, and every record is kept under its own [id]. *)
Theorem store_invariants (cs : list MediaDbCall) (s : MediaDatabase.State) :
  connected s -> keyedById s ->
  connected (performAll cs s) /\ keyedById (performAll cs s).
Proof.
  revert s. induction cs as [|c cs IH]; intros s Hc Hk; [done|].
  apply IH; by apply (perform_invariants c s).
Qed.

Lemma perform_keyedById (c : MediaDbCall) (s : MediaDatabase.State) :
  keyedById s -> keyedById (perform c s).2.
Proof. apply (perform_invariants c s). Qed.

(** A store newly created has both invariants. *)
Lemma fresh_store_invariants (engine : IDBFactory) :
  objectStore engine = None ->
  connected (MediaDatabase.mkState false engine) /\
  keyedById (MediaDatabase.mkState false engine).
Proof.
  intros Hnone. split; [done|]. intros k v. unfold MediaDatabase.contents. simpl.
  rewrite Hnone. simpl. by rewrite lookup_empty.
Qed.

Lemma store_invariants_witness :
  connected (performAll [StoreMedia photoA; DeleteMedia "video_200_y"; ClearAllMedia;
                         StoreMedia videoB] (mediaDatabase (worldOn workingEngine))) /\
  keyedById (performAll [StoreMedia photoA; DeleteMedia "video_200_y"; ClearAllMedia;
                         StoreMedia videoB] (mediaDatabase (worldOn workingEngine))).
Proof.
  apply (store_invariants _ (mediaDatabase (worldOn workingEngine))).
  - intros H. vm_compute in H. discriminate.
  - intros k v H. vm_compute in H. discriminate.
Defined.

(** With the connection made, [getAllMedia] answers the records unless the
    read fails. *)
Lemma getAllMedia_connected (s : MediaDatabase.State) :
  MediaDatabase.db s = true ->
  is_Some (objectStore (MediaDatabase.indexedDB s)) ->
  requestError (MediaDatabase.indexedDB s) IDBGetAll = None ->
  MediaDatabase.getAllMedia s = (Resolved (MediaDatabase.records s), s).
Proof.
  intros Hdb [m Hm] Hre. unfold MediaDatabase.records. db_cases s; try discriminate.
  rewrite Hre. simpl. by injection Hm as ->.
Qed.

(** X3. A record that [storeMedia] has stored is among those that
    [getAllMedia] then reads, and it is the only one read with its [id]. *)
Theorem storeMedia_then_getAllMedia (r : StoredMediaData.t) (s : MediaDatabase.State) :
  keyedById s ->
  is_resolved (MediaDatabase.storeMedia r s).1 = true ->
  requestError (MediaDatabase.indexedDB s) IDBGetAll = None ->
  exists media,
    (MediaDatabase.getAllMedia (MediaDatabase.storeMedia r s).2).1 = Resolved media /\
    r ∈ media /\
    forall r', r' ∈ media -> StoredMediaData.id r' = StoredMediaData.id r -> r' = r.
Proof.
  intros Hk Hres Hre.
  destruct (perform_invariants (StoreMedia r) s) as (_ & Hre' & _ & Hk' & Hconn).
  cbn [perform] in *. specialize (Hk' Hk). destruct (Hconn Hres) as [Hdb Hos].
  destruct (MediaDatabase.storeMedia r s) as [[k|e] s'] eqn:Es; [|discriminate].
  apply storeMedia_spec in Es as [_ Hc]. simpl in *.
  rewrite getAllMedia_connected by (by rewrite ?Hre'). simpl.
  eexists. split; [reflexivity|]. unfold MediaDatabase.records. split.
  - apply list_elem_of_fmap. exists (StoredMediaData.id r, r). split; [done|].
    apply elem_of_inKeyOrder. rewrite Hc. apply lookup_insert_eq.
  - intros r' [[k' v] [-> Hin%elem_of_inKeyOrder]]%list_elem_of_fmap Hid. simpl in *.
    rewrite (Hk' _ _ Hin), Hid, Hc, lookup_insert_eq in Hin. by injection Hin.
Qed.

Lemma storeMedia_then_getAllMedia_witness :
  exists media,
    (MediaDatabase.getAllMedia
       (MediaDatabase.storeMedia photoA (mediaDatabase (worldOn workingEngine))).2).1
    = Resolved media /\
    photoA ∈ media /\
    forall r', r' ∈ media -> StoredMediaData.id r' = StoredMediaData.id photoA -> r' = photoA.
Proof.
  apply (storeMedia_then_getAllMedia photoA (mediaDatabase (worldOn workingEngine))).
  - intros k v H. vm_compute in H. discriminate.
  - reflexivity.
  - reflexivity.
Defined.

(** X4. A [deleteMedia(id)] that resolves has removed what was stored under
    [id] and nothing else; where nothing was stored under [id], it has
    changed nothing (a missing key is not an error). *)
Theorem deleteMedia_removes_key (id : string) (s : MediaDatabase.State) :
  is_resolved (MediaDatabase.deleteMedia id s).1 = true ->
  let s' := (MediaDatabase.deleteMedia id s).2 in
  MediaDatabase.contents s' !! id = None /\
  (forall k, k <> id -> MediaDatabase.contents s' !! k = MediaDatabase.contents s !! k) /\
  (MediaDatabase.contents s !! id = None ->
   MediaDatabase.contents s' = MediaDatabase.contents s).
Proof.
  intros Hres s'. subst s'.
  assert (Hc : MediaDatabase.contents (MediaDatabase.deleteMedia id s).2
               = delete id (MediaDatabase.contents s)).
  { db_cases s; try destruct (re _); simpl in *; try discriminate; try reflexivity. }
  rewrite Hc. split; [apply lookup_delete_eq|]. split.
  - intros k Hne. by apply lookup_delete_ne.
  - intros Hnone. by apply delete_id.
Qed.

Lemma deleteMedia_removes_key_witness :
  let s := (MediaDatabase.storeMedia photoA (mediaDatabase (worldOn workingEngine))).2 in
  let s' := (MediaDatabase.deleteMedia "video_200_y" s).2 in
  MediaDatabase.contents s' !! "video_200_y" = None /\
  (forall k, k <> "video_200_y" ->
             MediaDatabase.contents s' !! k = MediaDatabase.contents s !! k) /\
  (MediaDatabase.contents s !! "video_200_y" = None ->
   MediaDatabase.contents s' = MediaDatabase.contents s).
Proof.
  apply (deleteMedia_removes_key "video_200_y"
           (MediaDatabase.storeMedia photoA (mediaDatabase (worldOn workingEngine))).2).
  reflexivity.
Defined.

(** X5. After [close()] the next call reopens the database by itself: where
    the database can be opened, a call made after [close()] settles as it
    would have without it, and leaves the same state. *)
Theorem close_is_transparent (c : MediaDbCall) (s : MediaDatabase.State) :
  connected s ->
  openError (MediaDatabase.indexedDB s) = None ->
  perform c (MediaDatabase.close s) = perform c s.
Proof.
  unfold connected. intros Hconn Hopen.
  destruct c; cbn [perform]; db_cases s; simpl in *; subst; simpl;
    try discriminate; try reflexivity.
  all: by destruct (Hconn eq_refl).
Qed.

Lemma close_is_transparent_witness :
  perform GetAllMedia
    (MediaDatabase.close
       (MediaDatabase.storeMedia photoA (mediaDatabase (worldOn workingEngine))).2)
  = perform GetAllMedia
      (MediaDatabase.storeMedia photoA (mediaDatabase (worldOn workingEngine))).2.
Proof.
  apply (close_is_transparent GetAllMedia
           (MediaDatabase.storeMedia photoA (mediaDatabase (worldOn workingEngine))).2).
  - intros _. vm_compute. by eexists.
  - reflexivity.
Defined.

(** ** The capture hook: how its operations compose *)

Lemma run_addMedia_frame (media : CapturedMedia.t) (w : World) :
  createObjectURLError (run (useMediaCapture.addMedia media) w).2 = createObjectURLError w.
Proof.
  unfold useMediaCapture.addMedia. cbn [tryCatch pbind await run].
  rewrite settle_spec. cbn [perform].
  destruct (MediaDatabase.storeMedia _ _) as [[i|e] s']; reflexivity.
Qed.

(** Every handle that [restoreOnInit] builds is the handle of a record of the
    store: marked as persisted, with an object URL. *)
Lemma restoreOnInit_handles (w : World) (media : CapturedMedia.t) :
  media ∈ capturedMedia (restoreOnInit w).2 ->
  restoredFrom (storedData media) media.
Proof.
  unfold restoreOnInit.
  destruct (run_loadPersistedMedia (reload w)) as (w' & -> & _ & _ & _ & Hcm).
  destruct (reload_spec w) as (Hnil & _). simpl.
  destruct (MediaDatabase.getAllMedia (mediaDatabase (reload w))).1 as [stored|e].
  - destruct Hcm as [_ [[-> _]|(l & Hl & ->)]].
    + rewrite Hnil. by intros ?%elem_of_nil.
    + rewrite Array_sort_Permutation. intros Hin.
      destruct (proj1 (list_elem_of_lookup _ _) Hin) as [i Hi].
      destruct (Forall2_lookup_r _ _ _ _ _ Hl Hi) as (r & _ & Hrm).
      destruct Hrm as (Hsd & Hid & Hurl). by rewrite Hsd.
  - rewrite Hcm, Hnil. by intros ?%elem_of_nil.
Qed.

(** X6. A record that [addMedia] managed to persist comes back after a
    reload: when the read succeeds and every blob gets its URL, the
    collection that [restoreOnInit] builds holds a handle of that very
    record, marked as persisted and carrying an object URL. *)
Theorem addMedia_then_reload (media : CapturedMedia.t) (w : World) :
  is_resolved (MediaDatabase.storeMedia (storedData media) (mediaDatabase w)).1 = true ->
  (forall b, createObjectURLError w b = None) ->
  is_resolved (MediaDatabase.getAllMedia
                 (mediaDatabase (reload (run (useMediaCapture.addMedia media) w).2))).1
  = true ->
  let w1 := (run (useMediaCapture.addMedia media) w).2 in
  exists m, m ∈ capturedMedia (restoreOnInit w1).2 /\ restoredFrom (storedData media) m.
Proof.
  intros Hput Hurl Hread w1. subst w1.
  assert (Herr := run_addMedia_frame media w).
  destruct (run_addMedia media w) as (w1 & Hrun & _ & Hdb & _).
  rewrite Hrun in *. simpl in *.
  assert (Hin : storedData media ∈ MediaDatabase.records (mediaDatabase w1)).
  { destruct (MediaDatabase.storeMedia (storedData media) (mediaDatabase w))
      as [[k|e] s'] eqn:Es; [|discriminate].
    apply storeMedia_spec in Es as [_ Hc]. simpl in Hdb. subst s'.
    unfold MediaDatabase.records. apply list_elem_of_fmap.
    exists (StoredMediaData.id (storedData media), storedData media). split; [done|].
    apply elem_of_inKeyOrder. rewrite Hc. apply lookup_insert_eq. }
  assert (Hperm : storedData <$> capturedMedia (restoreOnInit w1).2
                  ≡ₚ MediaDatabase.records (mediaDatabase w1)).
  { apply restoreOnInit_complete; [exact Hread|]. intros b. by rewrite Herr. }
  rewrite <- Hperm in Hin.
  apply list_elem_of_fmap in Hin as (m & Hm & Hin).
  exists m. split; [exact Hin|]. rewrite Hm. by apply (restoreOnInit_handles w1).
Qed.

Lemma addMedia_then_reload_witness :
  let w1 := (run (useMediaCapture.addMedia mediaA) (worldOn workingEngine)).2 in
  exists m, m ∈ capturedMedia (restoreOnInit w1).2 /\ restoredFrom (storedData mediaA) m.
Proof.
  apply (addMedia_then_reload mediaA (worldOn workingEngine)).
  - reflexivity.
  - intros b. reflexivity.
  - reflexivity.
Defined.

(** What [removeMedia(id)] leaves of the store. *)
Lemma run_removeMedia_store (id : string) (w : World) :
  mediaDatabase (run (useMediaCapture.removeMedia id) w).2
  = match List.find (fun m => String.eqb (CapturedMedia.id m) id) (capturedMedia w) with
    | Some mediaToRemove =>
        match useMediaCapture.truthy (CapturedMedia.indexedDbId mediaToRemove) with
        | Some indexedDbId => (MediaDatabase.deleteMedia indexedDbId (mediaDatabase w)).2
        | None => mediaDatabase w
        end
    | None => mediaDatabase w
    end.
Proof.
  unfold useMediaCapture.removeMedia, useMediaCapture.removeUpdater, setCapturedMedia.
  cbn [pbind sync run handle].
  destruct (List.find _ (capturedMedia w)) as [m|]; [|reflexivity].
  unfold useMediaCapture.revokeIfBlob.
  destruct (startsWith "blob:" (CapturedMedia.url m));
    destruct (useMediaCapture.truthy (CapturedMedia.indexedDbId m)) as [i|];
    cbn [pbind sync run handle]; rewrite ?settle_spec; cbn [perform];
    try destruct (MediaDatabase.deleteMedia i _) as [[[]|e] s']; reflexivity.
Qed.

Lemma find_id_unique (media : CapturedMedia.t) (l : list CapturedMedia.t) :
  media ∈ l -> NoDup (CapturedMedia.id <$> l) ->
  List.find (fun m => String.eqb (CapturedMedia.id m) (CapturedMedia.id media)) l = Some media.
Proof.
  intros Hin Hnd. destruct (find_id_is_Some _ _ _ Hin eq_refl) as [m Hfind].
  rewrite Hfind. apply find_id_Some in Hfind as [Hm Hid].
  f_equal. by apply (NoDup_fmap_names CapturedMedia.id l).
Qed.

(** X7. Removing a persisted handle deletes its record: when the [delete]
    succeeds, nothing is stored under its [id] any more, and no reload
    brings it back. *)
Theorem removeMedia_then_reload (media : CapturedMedia.t) (w : World) :
  media ∈ capturedMedia w ->
  NoDup (CapturedMedia.id <$> capturedMedia w) ->
  keyedById (mediaDatabase w) ->
  CapturedMedia.indexedDbId media = Some (CapturedMedia.id media) ->
  CapturedMedia.id media <> "" ->
  is_resolved (MediaDatabase.deleteMedia (CapturedMedia.id media) (mediaDatabase w)).1 = true ->
  let w1 := (run (useMediaCapture.removeMedia (CapturedMedia.id media)) w).2 in
  MediaDatabase.contents (mediaDatabase w1) !! CapturedMedia.id media = None /\
  forall m, m ∈ capturedMedia (restoreOnInit w1).2 ->
            CapturedMedia.id m <> CapturedMedia.id media.
Proof.
  intros Hin Hnd Hkey Hdbid Hne Hdel w1.
  assert (Hdb : mediaDatabase w1
                = (MediaDatabase.deleteMedia (CapturedMedia.id media) (mediaDatabase w)).2).
  { subst w1. rewrite run_removeMedia_store, (find_id_unique media _ Hin Hnd), Hdbid.
    unfold useMediaCapture.truthy. by rewrite (proj2 (String.eqb_neq _ _) Hne). }
  assert (Hgone : MediaDatabase.contents (mediaDatabase w1) !! CapturedMedia.id media = None).
  { rewrite Hdb. destruct (MediaDatabase.deleteMedia (CapturedMedia.id media) (mediaDatabase w))
      as [[[]|e] s'] eqn:Ed; [|discriminate]. simpl.
    clear -Ed. revert Ed. generalize (mediaDatabase w) as s. intros s Ed.
    db_cases s; try destruct (re _); simpl in *; try discriminate;
      injection Ed as <-; simpl; apply lookup_delete_eq. }
  split; [exact Hgone|].
  intros m Hm%restoreOnInit_from_store Hid.
  assert (Hk1 : keyedById (mediaDatabase w1)).
  { rewrite Hdb. by apply (perform_invariants (DeleteMedia (CapturedMedia.id media))). }
  unfold MediaDatabase.records in Hm.
  apply list_elem_of_fmap in Hm as ([k v] & Hv & Hkv%elem_of_inKeyOrder). simpl in Hv.
  rewrite (Hk1 _ _ Hkv), <- Hv in Hkv. simpl in Hkv. rewrite Hid, Hgone in Hkv. discriminate.
Qed.

Lemma removeMedia_then_reload_witness :
  let media := CapturedMedia.with_indexedDbId mediaA "photo_100_x" in
  let w1 := (run (useMediaCapture.removeMedia (CapturedMedia.id media))
                 (worldAB workingEngine)).2 in
  MediaDatabase.contents (mediaDatabase w1) !! CapturedMedia.id media = None /\
  forall m, m ∈ capturedMedia (restoreOnInit w1).2 ->
            CapturedMedia.id m <> CapturedMedia.id media.
Proof.
  apply (removeMedia_then_reload (CapturedMedia.with_indexedDbId mediaA "photo_100_x")
                                 (worldAB workingEngine)).
  - vm_compute. apply list_elem_of_In. simpl. auto.
  - apply (bool_decide_unpack _). vm_compute. exact I.
  - apply (perform_keyedById (StoreMedia (storedData mediaB))
             (perform (StoreMedia (storedData mediaA))
                      (mediaDatabase (worldOn workingEngine))).2).
    apply (perform_keyedById (StoreMedia (storedData mediaA))).
    by apply fresh_store_invariants.
  - reflexivity.
  - discriminate.
  - reflexivity.
Defined.

(** X8. Removing a handle that never reached the store (its [put] failed:
    no [indexedDbId]) makes no call on the store and leaves it untouched. *)
Theorem removeMedia_memory_only (media : CapturedMedia.t) (w : World) :
  media ∈ capturedMedia w ->
  NoDup (CapturedMedia.id <$> capturedMedia w) ->
  CapturedMedia.indexedDbId media = None ->
  let w' := (run (useMediaCapture.removeMedia (CapturedMedia.id media)) w).2 in
  issued w' = issued w /\
  mediaDatabase w' = mediaDatabase w /\
  forall m, m ∈ capturedMedia w' -> CapturedMedia.id m <> CapturedMedia.id media.
Proof.
  intros Hin Hnd Hnone w'. subst w'.
  rewrite run_removeMedia_store.
  destruct (run_removeMedia (CapturedMedia.id media) w) as (w' & -> & Hcm & Hfx).
  rewrite (find_id_unique media _ Hin Hnd) in *. rewrite Hnone in *. simpl in *.
  destruct Hfx as [_ His]. rewrite app_nil_r in His.
  repeat split; [exact His|]. intros m. rewrite Hcm. apply filter_id_gone.
Qed.

Lemma removeMedia_memory_only_witness :
  let w := (run (useMediaCapture.addMedia mediaA) (worldOn readOnlyEngine)).2 in
  let w' := (run (useMediaCapture.removeMedia (CapturedMedia.id mediaA)) w).2 in
  issued w' = issued w /\
  mediaDatabase w' = mediaDatabase w /\
  forall m, m ∈ capturedMedia w' -> CapturedMedia.id m <> CapturedMedia.id mediaA.
Proof.
  apply (removeMedia_memory_only mediaA
           (run (useMediaCapture.addMedia mediaA) (worldOn readOnlyEngine)).2).
  - vm_compute. apply list_elem_of_In. simpl. auto.
  - apply (bool_decide_unpack _). vm_compute. exact I.
  - reflexivity.
Defined.

Lemma filter_sublist {A} (f : A -> bool) (l : list A) : List.filter f l `sublist_of` l.
Proof.
  induction l as [|x l IH]; simpl; [constructor|].
  destruct (f x); by constructor.
Qed.

Lemma filter_StronglySorted {A} (R : A -> A -> Prop) (f : A -> bool) (l : list A) :
  StronglySorted R l -> StronglySorted R (List.filter f l).
Proof.
  induction 1 as [|x l Hl IH Hx]; simpl; [constructor|].
  destruct (f x); [|exact IH]. constructor; [exact IH|].
  apply Forall_forall. intros y [Hy _]%list_elem_of_In%filter_In.
  rewrite Forall_forall in Hx. apply Hx. by apply list_elem_of_In.
Qed.

(** X9. [removeMedia(id)] takes handles out and does nothing else to the
    collection: what is left is the old collection in its old order, every
    handle of another [id] still there, and a collection that was newest
    first stays newest first. *)
Theorem removeMedia_keeps_order (id : string) (w : World) :
  let w' := (run (useMediaCapture.removeMedia id) w).2 in
  capturedMedia w' `sublist_of` capturedMedia w /\
  (forall m, m ∈ capturedMedia w -> CapturedMedia.id m <> id -> m ∈ capturedMedia w') /\
  (descending (capturedMedia w) -> descending (capturedMedia w')).
Proof.
  intros w'. subst w'.
  destruct (run_removeMedia id w) as (w' & -> & Hcm & _). simpl. rewrite Hcm.
  split; [apply filter_sublist|]. split.
  - intros m Hm Hne. apply list_elem_of_In, filter_In. split; [by apply list_elem_of_In|].
    apply negb_true_iff. by apply String.eqb_neq.
  - apply filter_StronglySorted.
Qed.

Lemma run_removeMedia_absent (id : string) (w : World) :
  id ∉ CapturedMedia.id <$> capturedMedia w ->
  run (useMediaCapture.removeMedia id) w = (Resolved tt, w).
Proof.
  intros Hnotin. destruct (find_id_None id (capturedMedia w) Hnotin) as [Hfind Hfilter].
  unfold useMediaCapture.removeMedia, useMediaCapture.removeUpdater, setCapturedMedia.
  cbn [pbind sync run handle].
  rewrite Hfind. cbn [pbind sync run handle]. rewrite Hfilter. by destruct w.
Qed.

(** X10. [removeMedia(id)] a second time does nothing at all: no handle
    removed, no URL revoked, no call on the store. *)
Theorem removeMedia_twice (id : string) (w : World) :
  let w1 := (run (useMediaCapture.removeMedia id) w).2 in
  run (useMediaCapture.removeMedia id) w1 = (Resolved tt, w1).
Proof.
  intros w1. apply run_removeMedia_absent.
  intros [m [Hid Hm]]%list_elem_of_fmap. subst w1.
  destruct (run_removeMedia id w) as (w' & Hrun & Hcm & _). rewrite Hrun in Hm. simpl in Hm.
  rewrite Hcm in Hm. by apply filter_id_gone in Hm.
Qed.

(** What [clearAllMedia()] leaves of the store: what the store's [clear]
    leaves. *)
Lemma run_clearAllMedia_store (closure : list CapturedMedia.t) (w : World) :
  mediaDatabase (run (useMediaCapture.clearAllMedia closure) w).2
  = (MediaDatabase.clearAllMedia (mediaDatabase w)).2 /\
  createObjectURLError (run (useMediaCapture.clearAllMedia closure) w).2
  = createObjectURLError w.
Proof.
  unfold useMediaCapture.clearAllMedia.
  rewrite run_pbind, run_tryCatch, run_pbind, run_await, settle_spec.
  cbn [perform issue mediaDatabase set_issued].
  destruct (MediaDatabase.clearAllMedia (mediaDatabase w)) as [[[]|e] s'];
    simpl fst; simpl snd; cbv beta iota; cbn [run sync handle]; cbv beta iota;
    rewrite run_pbind, run_forEach_revokeIfBlob; simpl; done.
Qed.

(** X11. After a [clearAllMedia()] whose [clear] of the store succeeded, a
    reload restores nothing: the collection is empty and loading is over. *)
Theorem clearAllMedia_then_reload (w : World) :
  is_resolved (MediaDatabase.clearAllMedia (mediaDatabase w)).1 = true ->
  let w1 := (run (useMediaCapture.clearAllMedia (capturedMedia w)) w).2 in
  capturedMedia (restoreOnInit w1).2 = [] /\ isLoading (restoreOnInit w1).2 = false.
Proof.
  intros Hres w1. split.
  - apply elem_of_nil_inv. intros m Hm%restoreOnInit_from_store.
    subst w1. destruct (run_clearAllMedia_store (capturedMedia w) w) as [Hdb _].
    unfold MediaDatabase.records in Hm. rewrite Hdb in Hm.
    destruct (MediaDatabase.clearAllMedia (mediaDatabase w)) as [[[]|e] s'] eqn:Ec;
      [|discriminate].
    apply clearAllMedia_spec in Ec. simpl in Hm. rewrite Ec, inKeyOrder_empty in Hm.
    by apply elem_of_nil in Hm.
  - unfold restoreOnInit.
    by destruct (run_loadPersistedMedia (reload w1)) as (w' & -> & Hld & _).
Qed.

Lemma clearAllMedia_then_reload_witness :
  let w1 := (run (useMediaCapture.clearAllMedia (capturedMedia (worldAB workingEngine)))
                 (worldAB workingEngine)).2 in
  capturedMedia (restoreOnInit w1).2 = [] /\ isLoading (restoreOnInit w1).2 = false.
Proof.
  apply (clearAllMedia_then_reload (worldAB workingEngine)). reflexivity.
Defined.

(** X12. After a [clearAllMedia()] whose [clear] of the store failed, the
    collection is empty but the records are still stored: a reload (the read
    succeeding, every blob getting its URL) brings all of them back. *)
Theorem clearAllMedia_failed_then_reload (w : World) :
  is_resolved (MediaDatabase.clearAllMedia (mediaDatabase w)).1 = false ->
  (forall b, createObjectURLError w b = None) ->
  is_resolved
    (MediaDatabase.getAllMedia
       (mediaDatabase
          (reload (run (useMediaCapture.clearAllMedia (capturedMedia w)) w).2))).1 = true ->
  let w1 := (run (useMediaCapture.clearAllMedia (capturedMedia w)) w).2 in
  storedData <$> capturedMedia (restoreOnInit w1).2 ≡ₚ MediaDatabase.records (mediaDatabase w).
Proof.
  intros Hrej Hurl Hread w1.
  destruct (run_clearAllMedia_store (capturedMedia w) w) as [Hdb Herr]. fold w1 in Hdb, Herr.
  rewrite (restoreOnInit_complete w1 Hread) by (intros b; by rewrite Herr).
  unfold MediaDatabase.records. rewrite Hdb.
  destruct (MediaDatabase.clearAllMedia (mediaDatabase w)) as [[[]|e] s'] eqn:Ec;
    [discriminate|].
  apply clearAllMedia_spec in Ec. simpl. by rewrite Ec.
Qed.

Lemma clearAllMedia_failed_then_reload_witness :
  let w := failingFrom (fun r => match r with IDBClear => Some quotaExceeded | _ => None end)
                       (worldAB workingEngine) in
  let w1 := (run (useMediaCapture.clearAllMedia (capturedMedia w)) w).2 in
  storedData <$> capturedMedia (restoreOnInit w1).2 ≡ₚ MediaDatabase.records (mediaDatabase w).
Proof.
  apply (clearAllMedia_failed_then_reload
           (failingFrom (fun r => match r with IDBClear => Some quotaExceeded | _ => None end)
                        (worldAB workingEngine))).
  - reflexivity.
  - intros b. reflexivity.
  - reflexivity.
Defined.

(** The mount effect, when some stored record gets no object URL: nothing is
    restored. *)
Lemma run_loadPersistedMedia_no_url (w : World) (stored : list StoredMediaData.t) :
  (MediaDatabase.getAllMedia (mediaDatabase w)).1 = Resolved stored ->
  Exists (fun r => createObjectURLError w (StoredMediaData.blob r) <> None) stored ->
  capturedMedia (run useMediaCapture.loadPersistedMedia w).2 = capturedMedia w.
Proof.
  intros Hget Hex. unfold useMediaCapture.loadPersistedMedia.
  rewrite run_tryFinally, run_tryCatch, run_pbind. simpl run at 1. cbv beta iota.
  rewrite run_pbind, run_await. unfold settle, issue.
  cbn [perform mediaDatabase set_console set_issued].
  destruct (MediaDatabase.getAllMedia (mediaDatabase w)) as [o s']. simpl in Hget. subst o.
  destruct stored as [|r stored]; [by apply Exists_nil in Hex|].
  cbn [length Nat.ltb Nat.leb]. rewrite run_pbind.
  match goal with |- context [run (mapP _ _) ?w0] =>
    assert (Hm := run_mapP_restore (r :: stored) w0);
    destruct (run (mapP useMediaCapture.restore (r :: stored)) w0) as [[l|e] w1]
  end.
  - destruct Hm as (_ & _ & Hall). exfalso.
    apply Exists_exists in Hex as (x & Hx & Hne).
    rewrite Forall_forall in Hall. by apply Hne, Hall.
  - destruct Hm as ((Hcm & _) & _). simpl. exact Hcm.
Qed.

(** X13. Restoring is all or nothing: when no object URL can be had for
    one of the stored records, [restoreOnInit] restores none of them; the
    collection is empty, loading is over, and no error is raised. *)
Theorem restoreOnInit_all_or_nothing (w : World) (r : StoredMediaData.t) :
  is_resolved (MediaDatabase.getAllMedia (mediaDatabase (reload w))).1 = true ->
  r ∈ MediaDatabase.records (mediaDatabase w) ->
  createObjectURLError w (StoredMediaData.blob r) <> None ->
  (restoreOnInit w).1 = Resolved tt /\
  capturedMedia (restoreOnInit w).2 = [] /\
  isLoading (restoreOnInit w).2 = false.
Proof.
  intros Hread Hin Hurl.
  destruct (reload_spec w) as (Hnil & _ & _ & Herr & Hc).
  destruct (MediaDatabase.getAllMedia (mediaDatabase (reload w))) as [[stored|e] s'] eqn:Eg;
    [|discriminate].
  assert (Hstored : stored = MediaDatabase.records (mediaDatabase w)).
  { apply getAllMedia_spec in Eg as [_ ->]. unfold MediaDatabase.records. by rewrite Hc. }
  unfold restoreOnInit. split; [|split].
  - by destruct (run_loadPersistedMedia (reload w)) as (w' & -> & _).
  - rewrite (run_loadPersistedMedia_no_url (reload w) stored), Hnil; [done|by rewrite Eg|].
    apply Exists_exists. exists r. rewrite Hstored, Herr. done.
  - by destruct (run_loadPersistedMedia (reload w)) as (w' & -> & Hld & _).
Qed.

Lemma restoreOnInit_all_or_nothing_witness :
  let w := set_mediaDatabase
             (storeAll [photoA; videoB] (mediaDatabase worldNoURLs)) worldNoURLs in
  (restoreOnInit w).1 = Resolved tt /\
  capturedMedia (restoreOnInit w).2 = [] /\
  isLoading (restoreOnInit w).2 = false.
Proof.
  apply (restoreOnInit_all_or_nothing
           (set_mediaDatabase (storeAll [photoA; videoB] (mediaDatabase worldNoURLs))
                              worldNoURLs) photoA).
  - reflexivity.
  - vm_compute. apply list_elem_of_In. simpl. auto.
  - discriminate.
Defined.

(** X14. [addMedia(media)] followed by [removeMedia(media.id)], for an [id]
    that the collection did not have: the collection is back to what it was,
    whether the [put] succeeded or not and however many times React calls
    the updater.  No URL is revoked but the object URL of [media], once for
    each call of the updater. *)
Theorem addMedia_then_removeMedia (extra : nat) (media : CapturedMedia.t) (w : World) :
  CapturedMedia.id media ∉ CapturedMedia.id <$> capturedMedia w ->
  let w1 := (run (useMediaCapture.addMedia media) w).2 in
  let w2 := (run (useMediaCapture.removeMediaRepeated extra (CapturedMedia.id media)) w1).2 in
  capturedMedia w2 = capturedMedia w /\
  revoked w2 = revoked w ++ (if startsWith "blob:" (CapturedMedia.url media)
                             then replicate (S extra) (CapturedMedia.url media) else []).
Proof.
  intros Hfresh w1 w2. subst w2 w1.
  destruct (find_id_None _ _ Hfresh) as [_ Hfilter].
  destruct (run_addMedia media w) as (w1 & -> & Hrv & _ & Hcm). cbn [snd].
  destruct (run_removeMediaRepeated extra (CapturedMedia.id media) w1)
    as (w2 & -> & Hcm2 & Hfx).
  cbn [snd].
  rewrite Hcm in Hcm2, Hfx.
  destruct (MediaDatabase.storeMedia (storedData media) (mediaDatabase w)).1;
    simpl in Hcm2, Hfx; rewrite String.eqb_refl in Hcm2, Hfx; simpl in Hcm2, Hfx;
    rewrite Hfilter in Hcm2; destruct Hfx as [Hrv2 _]; rewrite Hrv in Hrv2; done.
Qed.

Lemma addMedia_then_removeMedia_witness :
  let w1 := (run (useMediaCapture.addMedia mediaB)
                 (run (useMediaCapture.addMedia mediaA) (worldOn readOnlyEngine)).2).2 in
  let w2 := (run (useMediaCapture.removeMediaRepeated strictMode (CapturedMedia.id mediaB))
                 w1).2 in
  capturedMedia w2
  = capturedMedia (run (useMediaCapture.addMedia mediaA) (worldOn readOnlyEngine)).2 /\
  revoked w2
  = revoked (run (useMediaCapture.addMedia mediaA) (worldOn readOnlyEngine)).2
    ++ (if startsWith "blob:" (CapturedMedia.url mediaB)
        then replicate (S strictMode) (CapturedMedia.url mediaB) else []).
Proof.
  apply (addMedia_then_removeMedia strictMode mediaB
           (run (useMediaCapture.addMedia mediaA) (worldOn readOnlyEngine)).2).
  apply (bool_decide_unpack _). vm_compute. exact I.
Defined.

(** ** From capture to removal *)

(** What [createMediaFromBlob] returns, when it returns. *)
Lemma createMediaFromBlob_result (blob : Blob) (type : CameraMode) (w w1 : World)
      (media : CapturedMedia.t) :
  run (useMediaCapture.createMediaFromBlob blob type) w = (Resolved media, w1) ->
  CapturedMedia.id media
  = CameraMode_str type +:+ "_" +:+ Z_str (dateNow w (dateNowCalls w)) +:+ "_"
    +:+ randomSuffix w (randomCalls w) /\
  CapturedMedia.filename media
  = useMediaCapture.filenameFor type (JSDate.isoString (CapturedMedia.timestamp media)) /\
  CapturedMedia.indexedDbId media = None /\
  capturedMedia w1 = capturedMedia w /\
  mediaDatabase w1 = mediaDatabase w /\
  issued w1 = issued w /\
  revoked w1 = revoked w.
Proof.
  unfold useMediaCapture.createMediaFromBlob.
  destruct w as [cm ld db n err rv clock nc rnd nr con iss].
  cbn -[JSDate.toISOString useMediaCapture.filenameFor Z_str].
  destruct (err blob) as [e|];
    cbn -[JSDate.toISOString useMediaCapture.filenameFor Z_str];
    unfold JSDate.toISOString; destruct (JSDate.isTimeValue (clock (S nc)));
    cbn -[JSDate.isoString useMediaCapture.filenameFor Z_str];
    intros [= <- <-]; cbn -[JSDate.isoString useMediaCapture.filenameFor Z_str];
    repeat split.
Qed.

Lemma occurs_app (c : ascii) (a b : string) :
  FruitDetectorSetup.occurs c (a +:+ b)
  = FruitDetectorSetup.occurs c a || FruitDetectorSetup.occurs c b.
Proof.
  induction a as [|x a IH]; [reflexivity|].
  change (String x a +:+ b) with (String x (a +:+ b)). simpl. rewrite IH.
  by rewrite orb_assoc.
Qed.

Lemma replaceColonDot_clean (s : string) :
  FruitDetectorSetup.occurs ":" (replaceColonDot s) = false /\
  FruitDetectorSetup.occurs "." (replaceColonDot s) = false.
Proof.
  induction s as [|c s [IH1 IH2]]; [done|]. simpl.
  destruct (Ascii.eqb c ":") eqn:E1; [by rewrite IH1, IH2|].
  destruct (Ascii.eqb c ".") eqn:E2; [by rewrite IH1, IH2|].
  by rewrite E1, E2, IH1, IH2.
Qed.

(** X15. The file name that [createMediaFromBlob] gives is
    [<stem>.<extension>] for a stem that holds no colon and no dot, whatever
    the time: the only dot of the name is that of its extension. *)
Theorem createMediaFromBlob_filename_clean (blob : Blob) (type : CameraMode) (w w1 : World)
        (media : CapturedMedia.t) :
  run (useMediaCapture.createMediaFromBlob blob type) w = (Resolved media, w1) ->
  exists stem,
    CapturedMedia.filename media = stem +:+ "." +:+ useMediaCapture.extension type /\
    FruitDetectorSetup.occurs ":" stem = false /\
    FruitDetectorSetup.occurs "." stem = false /\
    FruitDetectorSetup.occurs ":" (CapturedMedia.filename media) = false.
Proof.
  intros (_ & Hfn & _)%createMediaFromBlob_result. rewrite Hfn.
  set (iso := JSDate.isoString (CapturedMedia.timestamp media)).
  destruct (replaceColonDot_clean (slice0 19 iso)) as [Hc Hd].
  exists (CameraMode_str type +:+ "_" +:+ replaceColonDot (slice0 19 iso)).
  unfold useMediaCapture.filenameFor.
  split; [by rewrite !string_app_assoc|].
  rewrite !occurs_app, Hc, Hd. by destruct type.
Qed.

Lemma createMediaFromBlob_filename_clean_witness :
  exists stem,
    CapturedMedia.filename
      (CapturedMedia.mk "video_1700000000000_k3j9x0q1z" video "" [] 1700000000000
                        "video_2023-11-14T22-13-20.webm" None)
    = stem +:+ "." +:+ useMediaCapture.extension video /\
    FruitDetectorSetup.occurs ":" stem = false /\
    FruitDetectorSetup.occurs "." stem = false /\
    FruitDetectorSetup.occurs ":"
      (CapturedMedia.filename
         (CapturedMedia.mk "video_1700000000000_k3j9x0q1z" video "" [] 1700000000000
                           "video_2023-11-14T22-13-20.webm" None)) = false.
Proof.
  apply (createMediaFromBlob_filename_clean [] video worldNoURLs
           (run (useMediaCapture.createMediaFromBlob [] video) worldNoURLs).2).
  vm_compute. reflexivity.
Defined.

Lemma run_addMedia_issued (media : CapturedMedia.t) (w : World) :
  issued (run (useMediaCapture.addMedia media) w).2 = issued w ++ [StoreMedia (storedData media)].
Proof.
  unfold useMediaCapture.addMedia. cbn [tryCatch pbind await run].
  rewrite settle_spec. cbn [perform].
  destruct (MediaDatabase.storeMedia _ _) as [[i|e] s']; reflexivity.
Qed.

(** X16. A capture made by [createMediaFromBlob], added with a [put] that
    succeeds, then removed: the calls made on the store are the [storeMedia]
    of its record and then the [deleteMedia] of its [id], once for each call
    of the updater and never skipped, the [id] never being empty; the
    collection is back to what it was. *)
Theorem capture_add_remove (extra : nat) (blob : Blob) (type : CameraMode) (w w1 : World)
        (media : CapturedMedia.t) :
  run (useMediaCapture.createMediaFromBlob blob type) w = (Resolved media, w1) ->
  CapturedMedia.id media ∉ CapturedMedia.id <$> capturedMedia w ->
  is_resolved (MediaDatabase.storeMedia (storedData media) (mediaDatabase w)).1 = true ->
  let w2 := (run (useMediaCapture.addMedia media) w1).2 in
  let w3 := (run (useMediaCapture.removeMediaRepeated extra (CapturedMedia.id media)) w2).2 in
  issued w3
  = issued w ++ StoreMedia (storedData media)
                :: replicate (S extra) (DeleteMedia (CapturedMedia.id media)) /\
  capturedMedia w3 = capturedMedia w.
Proof.
  intros (Hid & _ & _ & Hcm1 & Hdb1 & His1 & _)%createMediaFromBlob_result Hfresh Hput w2 w3.
  assert (Hne : String.eqb (CapturedMedia.id media) "" = false).
  { rewrite Hid. by destruct type. }
  rewrite <- Hcm1 in Hfresh. rewrite <- Hdb1 in Hput.
  destruct (find_id_None _ _ Hfresh) as [_ Hfilter].
  assert (His2 := run_addMedia_issued media w1). fold w2 in His2.
  destruct (run_addMedia media w1) as (w2' & Hrun2 & _ & _ & Hcm2).
  assert (w2 = w2') as -> by (subst w2; by rewrite Hrun2). clear Hrun2.
  subst w3.
  destruct (run_removeMediaRepeated extra (CapturedMedia.id media) w2')
    as (w3 & -> & Hcm3 & Hfx).
  cbn [snd].
  destruct (MediaDatabase.storeMedia (storedData media) (mediaDatabase w1)) as [[k|e] s'] eqn:Es;
    [|discriminate].
  apply storeMedia_spec in Es as [-> _]. simpl in Hcm2.
  rewrite Hcm2 in Hcm3, Hfx. simpl in Hcm3, Hfx.
  rewrite String.eqb_refl in Hcm3, Hfx. simpl in Hcm3, Hfx.
  rewrite Hne in Hfx. destruct Hfx as [_ His3].
  rewrite Hfilter, Hcm1 in Hcm3. split; [|exact Hcm3].
  rewrite His3, His2, His1. by rewrite <- app_assoc.
Qed.

Lemma capture_add_remove_witness :
  let media := CapturedMedia.mk "photo_100_r0" photo "blob:media/0" [] 200
                                "photo_1970-01-01T00-00-00.jpg" None in
  let w1 := (run (useMediaCapture.createMediaFromBlob [] photo) (worldOn workingEngine)).2 in
  let w2 := (run (useMediaCapture.addMedia media) w1).2 in
  let w3 := (run (useMediaCapture.removeMediaRepeated strictMode (CapturedMedia.id media))
                 w2).2 in
  issued w3
  = issued (worldOn workingEngine)
    ++ StoreMedia (storedData media)
       :: replicate (S strictMode) (DeleteMedia (CapturedMedia.id media)) /\
  capturedMedia w3 = capturedMedia (worldOn workingEngine).
Proof.
  apply (capture_add_remove strictMode [] photo (worldOn workingEngine)).
  - vm_compute. reflexivity.
  - apply (bool_decide_unpack _). vm_compute. exact I.
  - reflexivity.
Defined.

(** ** [preprocessImage] *)

Section PreprocessImage.
Import FruitDetectorSetup.

Lemma matchHere_nonempty (s group : string) : matchHere s = Some group -> group <> "".
Proof.
  unfold matchHere. destruct (startsWith "data:" s); [|discriminate].
  destruct (String.eqb _ "") eqn:E; [discriminate|].
  intros [= <-]. by apply String.eqb_neq.
Qed.

Lemma matchMime_nonempty (header group : string) :
  matchMime header = Some group -> group <> "".
Proof.
  induction header as [|c header IH]; cbn [matchMime].
  - destruct (matchHere "") eqn:E; [|discriminate]. intros [= <-]. by eapply matchHere_nonempty.
  - destruct (matchHere (String c header)) eqn:E; [|exact IH].
    intros [= <-]. by eapply matchHere_nonempty.
Qed.

(** X17. The MIME type that [preprocessImage] answers is never empty:
    it is what the header of the data URL names, or [image/jpeg]. *)
Theorem preprocessImage_mimeType (base64Image : string) :
  mimeType (preprocessImage base64Image) <> "" /\
  (mimeType (preprocessImage base64Image) = "image/jpeg" \/
   matchMime (nth 0 (split "," base64Image) "") = Some (mimeType (preprocessImage base64Image))).
Proof.
  unfold preprocessImage. destruct (startsWith "data:" base64Image); simpl; [|by split; [|left]].
  destruct (matchMime _) as [group|] eqn:E; [|by split; [|left]].
  split; [by eapply matchMime_nonempty|by right].
Qed.

Lemma split_no_sep (sep : ascii) (s : string) :
  occurs sep s = false -> split sep s = [s].
Proof.
  induction s as [|c s IH]; [done|]. simpl.
  destruct (Ascii.eqb c sep); [done|]. simpl. intros H. by rewrite (IH H).
Qed.

Lemma split_app (sep : ascii) (a b : string) :
  occurs sep a = false -> split sep (a +:+ String sep b) = a :: split sep b.
Proof.
  induction a as [|c a IH]; intros H.
  - change ("" +:+ String sep b) with (String sep b). simpl. by rewrite Ascii.eqb_refl.
  - change (String c a +:+ String sep b) with (String c (a +:+ String sep b)).
    simpl in *. destruct (Ascii.eqb c sep); [done|]. simpl in H. by rewrite (IH H).
Qed.

Lemma substring_all (s : string) : String.substring 0 (String.length s) s = s.
Proof. induction s as [|c s IH]; [done|]. simpl. by rewrite IH. Qed.

Lemma upToSemicolon_app (a b : string) :
  occurs ";" a = false -> upToSemicolon (a +:+ String ";" b) = a.
Proof.
  induction a as [|c a IH]; intros H; [done|].
  change (String c a +:+ String ";" b) with (String c (a +:+ String ";" b)).
  simpl in *. destruct (Ascii.eqb c ";"); [done|]. simpl in H. by rewrite (IH H).
Qed.

Lemma startsWith_data (x : string) : startsWith "data:" ("data:" +:+ x) = true.
Proof.
  change ("data:" +:+ x)
    with (String "d" (String "a" (String "t" (String "a" (String ":" x))))).
  unfold startsWith. by destruct x.
Qed.

Lemma matchHere_data (x : string) :
  matchHere ("data:" +:+ x)
  = if String.eqb (upToSemicolon x) "" then None else Some (upToSemicolon x).
Proof.
  unfold matchHere. rewrite startsWith_data.
  change ("data:" +:+ x)
    with (String "d" (String "a" (String "t" (String "a" (String ":" x))))).
  cbn [String.length Nat.sub String.substring]. by rewrite Nat.sub_0_r, substring_all.
Qed.

Lemma matchMime_here (s group : string) :
  matchHere s = Some group -> matchMime s = Some group.
Proof. intros H. destruct s; cbn [matchMime]; by rewrite H. Qed.

(** X18. A data URL is taken apart into what it was made of:
    [data:<mime>;<parameters>,<payload>] gives back [<mime>] and
    [<payload>], for a MIME type without [;] and no comma but the one that
    separates header and payload. *)
Theorem preprocessImage_data_url (mime parameters payload : string) :
  mime <> "" ->
  occurs ";" mime = false ->
  occurs "," mime = false ->
  occurs "," parameters = false ->
  occurs "," payload = false ->
  preprocessImage ("data:" +:+ mime +:+ String ";" parameters +:+ String "," payload)
  = mkImage mime (Some payload).
Proof.
  intros Hne Hsemi Hc1 Hc2 Hc3. unfold preprocessImage.
  rewrite startsWith_data.
  assert (Hsplit : split "," ("data:" +:+ mime +:+ String ";" parameters +:+ String "," payload)
                   = ["data:" +:+ mime +:+ String ";" parameters; payload]).
  { rewrite <- !string_app_assoc, split_app, split_no_sep; [done..|].
    rewrite !occurs_app, Hc1. simpl. exact Hc2. }
  rewrite Hsplit. cbn [nth lookup list_lookup].
  assert (Hmatch : matchMime ("data:" +:+ mime +:+ String ";" parameters) = Some mime).
  { apply matchMime_here. rewrite matchHere_data, upToSemicolon_app by done.
    by rewrite (proj2 (String.eqb_neq _ _) Hne). }
  by rewrite Hmatch.
Qed.

Lemma preprocessImage_data_url_witness :
  preprocessImage ("data:" +:+ "image/png" +:+ String ";" "base64" +:+ String "," "iVBORw0KGgo=")
  = mkImage "image/png" (Some "iVBORw0KGgo=").
Proof.
  apply (preprocessImage_data_url "image/png" "base64" "iVBORw0KGgo="); [discriminate|done..].
Defined.

(** X19. A string that starts like a data URL but has no comma leaves
    [preprocessImage] without data: its [data] is [undefined]. *)
Theorem preprocessImage_no_comma (base64Image : string) :
  startsWith "data:" base64Image = true ->
  occurs "," base64Image = false ->
  data (preprocessImage base64Image) = None.
Proof.
  intros Hstart Hcomma. unfold preprocessImage. rewrite Hstart. simpl.
  by rewrite split_no_sep.
Qed.

Lemma preprocessImage_no_comma_witness :
  data (preprocessImage "data:image/jpeg;base64") = None.
Proof. apply (preprocessImage_no_comma "data:image/jpeg;base64"); reflexivity. Defined.

End PreprocessImage.

(** ** [detectFruits]: what its failures look like, and what it keeps *)

Section DetectFruitsMore.
Import FruitDetector FruitContract.

Lemma detectFruits_rejection (self : FruitDetector.t) (reply : ApiReply) (e : Thrown) :
  detectFruits self reply = Rejected e ->
  exists message, e = ThrownError FruitDetectionError message /\ message <> "".
Proof.
  unfold detectFruits.
  destruct (negb (isInitialized self) || negb (model self)).
  { intros [= <-]. by eexists. }
  destruct (detect reply) as [r|error]; [discriminate|]. intros [= <-].
  unfold rethrow.
  destruct error as [[] message|]; try (by eexists).
  all: destruct (includes "API key" _); [by eexists|].
  all: destruct (String.eqb message "") eqn:E; [by eexists|].
  all: eexists; split; [reflexivity|]; by apply String.eqb_neq.
Qed.

(** X20. Whatever goes wrong inside [detectFruits] (detector not
    initialised, the service failing, a reply that is not JSON or has not
    the expected shape), it leaves as a [FruitDetectionError], and with a
    message that is not empty. *)
Theorem detectFruits_rejects_with_FruitDetectionError
        (self : FruitDetector.t) (reply : ApiReply) (e : Thrown) :
  detectFruits self reply = Rejected e ->
  exists message, e = ThrownError FruitDetectionError message /\ message <> "".
Proof. apply detectFruits_rejection. Qed.

Lemma detectFruits_rejects_with_FruitDetectionError_witness :
  detectFruits ready (ApiThrows (ThrownError Error ""))
  = Rejected (ThrownError FruitDetectionError "Unknown error occurred during fruit detection") /\
  exists message,
    ThrownError FruitDetectionError "Unknown error occurred during fruit detection"
    = ThrownError FruitDetectionError message /\ message <> "".
Proof.
  split; [reflexivity|].
  apply (detectFruits_rejects_with_FruitDetectionError ready (ApiThrows (ThrownError Error ""))).
  reflexivity.
Defined.

Lemma filterS_null (l : list JSValue) :
  JSNull ∈ l -> is_resolved (filterS keepFruit l) = false.
Proof.
  induction l as [|x l IH]; [by intros ?%elem_of_nil|].
  intros [<-|Hin]%elem_of_cons; [reflexivity|]. cbn [filterS].
  destruct (keepFruit x); [|reflexivity]. cbn [sbind].
  specialize (IH Hin). by destruct (filterS keepFruit l).
Qed.

(** X21. One [null] among the [fruits] of a reply makes the whole
    detection fail: [detectFruits] rejects, and none of the other fruits is
    returned. *)
Theorem detectFruits_null_entry (self : FruitDetector.t) (parsed : JSValue) :
  JSNull ∈ fruitsOf parsed ->
  is_resolved (detectFruits self (ApiText (Some parsed))) = false.
Proof.
  intros Hin. unfold detectFruits.
  destruct (negb (isInitialized self) || negb (model self)); [reflexivity|].
  unfold detect. cbn [sbind]. unfold fruitsOf in Hin.
  destruct (get parsed "fruits") as [fruits|e]; [|reflexivity]. cbn [sbind].
  destruct fruits as [| |b|n|s|elements|o]; try reflexivity.
  apply filterS_null in Hin. by destruct (filterS keepFruit elements).
Qed.

Lemma detectFruits_null_entry_witness :
  is_resolved
    (detectFruits ready (ApiText (Some (JSObject [("fruits", JSArray [apple; JSNull])]))))
  = false.
Proof.
  apply (detectFruits_null_entry ready (JSObject [("fruits", JSArray [apple; JSNull])])).
  apply list_elem_of_In. simpl. auto.
Defined.

Lemma filterS_kept (l : list JSValue) :
  is_resolved (filterS keepFruit l) = true ->
  filterS keepFruit (List.filter checked l) = Resolved (List.filter checked l).
Proof.
  induction l as [|x l IH]; [done|]. cbn [filterS List.filter].
  destruct (keepFruit x) as [keep|e] eqn:Ex; [|discriminate]. cbn [sbind].
  destruct (filterS keepFruit l) as [rest|e]; [|discriminate]. intros _.
  specialize (IH eq_refl). rewrite <- (keepFruit_checked _ _ Ex).
  destruct keep; [|exact IH]. cbn [filterS]. by rewrite Ex, IH.
Qed.

Lemma set_property_twice (p : string) (v v' : JSValue) (properties : list (string * JSValue)) :
  set_property p v (set_property p v' properties) = set_property p v properties.
Proof.
  induction properties as [|[k u] rest IH]; simpl.
  - by rewrite String.eqb_refl.
  - destruct (String.eqb k p) eqn:E; simpl; rewrite E; [done|by rewrite IH].
Qed.

Lemma lookup_set_property_ne (p q : string) (v : JSValue)
      (properties : list (string * JSValue)) :
  q <> p -> lookup_property q (set_property p v properties) = lookup_property q properties.
Proof.
  intros Hne. induction properties as [|[k u] rest IH]; simpl.
  - by rewrite (proj2 (String.eqb_neq p q)).
  - destruct (String.eqb k p) eqn:E; simpl.
    + apply String.eqb_eq in E. subst k. by rewrite (proj2 (String.eqb_neq p q)).
    + by rewrite IH.
Qed.

(** X22. A result of [detectFruits] is the reply with its [fruits]
    thinned out and nothing else touched: the fruits returned are fruits of
    the reply, in the order of the reply, and every other property of the
    reply is in the result as it was. *)
Theorem detectFruits_touches_only_fruits (self : FruitDetector.t) (parsed result : JSValue) :
  detectFruits self (ApiText (Some parsed)) = Resolved result ->
  fruitsOf result `sublist_of` fruitsOf parsed /\
  forall p, p <> "fruits" -> prop result p = prop parsed p.
Proof.
  intros Hres. split.
  - destruct (detectFruits_filters _ _ _ Hres) as (parsed' & [= <-] & ->).
    apply filter_sublist.
  - revert Hres. unfold detectFruits.
    destruct (negb (isInitialized self) || negb (model self)); [discriminate|].
    destruct (detect (ApiText (Some parsed))) as [r|e] eqn:Ed; [|discriminate].
    intros [= <-]. unfold detect in Ed. cbn [sbind] in Ed.
    destruct parsed as [| |b|n|s|l|properties]; cbn [get sbind] in Ed; try discriminate.
    destruct (lookup_property "fruits" properties) as [| |b|n|s|elements|o];
      try discriminate.
    destruct (filterS keepFruit elements) as [kept|e]; [|discriminate].
    cbn [sbind] in Ed. injection Ed as <-.
    intros p Hne. unfold prop, set. cbn [get]. by apply lookup_set_property_ne.
Qed.

Lemma detectFruits_touches_only_fruits_witness :
  fruitsOf (JSObject [("model", JSString "gemini-1.5-flash");
                      ("fruits", JSArray [apple; banana])])
  `sublist_of`
  fruitsOf (JSObject [("model", JSString "gemini-1.5-flash");
                      ("fruits", JSArray [cherry; apple; banana])]) /\
  forall p, p <> "fruits" ->
    prop (JSObject [("model", JSString "gemini-1.5-flash");
                    ("fruits", JSArray [apple; banana])]) p
    = prop (JSObject [("model", JSString "gemini-1.5-flash");
                      ("fruits", JSArray [cherry; apple; banana])]) p.
Proof.
  apply (detectFruits_touches_only_fruits ready
           (JSObject [("model", JSString "gemini-1.5-flash");
                      ("fruits", JSArray [cherry; apple; banana])])).
  vm_compute. reflexivity.
Defined.

(** X23. The detector's validation is idempotent: a result that
    [detectFruits] returned, given to it again as a reply, is returned
    unchanged. *)
Theorem detectFruits_idempotent (self : FruitDetector.t) (reply : ApiReply) (result : JSValue) :
  detectFruits self reply = Resolved result ->
  detectFruits self (ApiText (Some result)) = Resolved result.
Proof.
  unfold detectFruits.
  destruct (negb (isInitialized self) || negb (model self)); [discriminate|].
  destruct (detect reply) as [r|e] eqn:Ed; [|discriminate]. intros [= <-].
  unfold detect in Ed.
  destruct reply as [e|[parsed|]]; cbn [sbind] in Ed; try discriminate.
  destruct parsed as [| |b|n|s|l|properties]; cbn [get sbind] in Ed; try discriminate.
  destruct (lookup_property "fruits" properties) as [| |b|n|s|elements|o];
    try discriminate.
  destruct (filterS keepFruit elements) as [kept|e] eqn:Ef; [|discriminate].
  cbn [sbind] in Ed. injection Ed as <-.
  assert (Hkept := filterS_checked _ _ Ef). subst kept.
  unfold detect, set. cbn [sbind get]. rewrite lookup_set_property.
  rewrite filterS_kept by (by rewrite Ef). cbn [sbind].
  by rewrite set_property_twice.
Qed.

Lemma detectFruits_idempotent_witness :
  detectFruits ready (ApiText (Some (JSObject [("fruits", JSArray [apple; banana])])))
  = Resolved (JSObject [("fruits", JSArray [apple; banana])]).
Proof.
  apply (detectFruits_idempotent ready sampleReply). vm_compute. reflexivity.
Defined.

End DetectFruitsMore.

(** ** [useFruitDetection] *)

Section UseFruitDetection.
Import useFruitDetection.

(** X24. Debouncing: once a call of the hook's [detectFruits] has gone to
    the detector at time [t], a call at a time no more than
    [processingInterval] later is dropped; it leaves the hook as it was and
    does not reach the detector, whatever the service would have answered. *)
Theorem detectFruits_debounced (processingInterval t t' : Z) (reply reply' : FruitDetector.ApiReply)
        (h : State) :
  is_Some (detectFruits_begin processingInterval t h).2 ->
  t' - t <= processingInterval ->
  let h1 := detectFruits processingInterval t reply h in
  detectFruits_begin processingInterval t' h1 = (h1, None) /\
  detectFruits processingInterval t' reply' h1 = h1.
Proof.
  intros [d Hd] Hle h1.
  assert (Hh1 : detectorRef h1 = Some d /\ FruitDetectorSetup.isReady d = true /\
                lastProcessingTime h1 = t).
  { subst h1. unfold detectFruits. revert Hd. unfold detectFruits_begin, shouldProcessFrame.
    destruct (detectorRef h) as [d0|] eqn:Eref; [|discriminate].
    destruct (FruitDetectorSetup.isReady d0) eqn:Eready; [|discriminate].
    destruct (processingInterval <? t - lastProcessingTime h); [|discriminate].
    simpl. intros [= <-].
    by destruct (FruitDetector.detectFruits d0 reply). }
  destruct Hh1 as (Href & Hready & Hlast).
  assert (Hbegin : detectFruits_begin processingInterval t' h1 = (h1, None)).
  { unfold detectFruits_begin, shouldProcessFrame. rewrite Href, Hready, Hlast.
    by rewrite (proj2 (Z.ltb_ge _ _) Hle). }
  split; [exact Hbegin|]. unfold detectFruits. by rewrite Hbegin.
Qed.

Lemma detectFruits_debounced_witness :
  let h := initializeDetector (fun _ => None) "key" initial in
  let h1 := detectFruits 500 1700000000000 FruitContract.sampleReply h in
  detectFruits_begin 500 1700000000500 h1 = (h1, None) /\
  detectFruits 500 1700000000500 (FruitDetector.ApiText None) h1 = h1.
Proof.
  apply (detectFruits_debounced 500 1700000000000 1700000000500 FruitContract.sampleReply
           (FruitDetector.ApiText None) (initializeDetector (fun _ => None) "key" initial)).
  - vm_compute. by eexists.
  - lia.
Defined.

(** X25. A call of the hook's [detectFruits] that goes to the detector
    leaves the hook in [processing] with no error when it suspends.  When the
    detector's promise settles, whatever other calls have made of the hook
    [h'] by then, it leaves one of two states, neither of them [processing]:
    [success] with the results, the error being what it was in [h'], or
    [error] with a non-empty message and no results. *)
Theorem detectFruits_outcome (processingInterval now : Z) (h0 : State)
        (detector : FruitDetector.t) :
  (detectFruits_begin processingInterval now h0).2 = Some detector ->
  let h := (detectFruits_begin processingInterval now h0).1 in
  (status h = DetectionStatus.processing /\ error h = None) /\
  forall (reply : FruitDetector.ApiReply) (h' : State),
    let h1 := detectFruits_settle (FruitDetector.detectFruits detector reply) h' in
    (status h1 = DetectionStatus.success /\ is_Some (detectionResults h1) /\
     error h1 = error h') \/
    (status h1 = DetectionStatus.error /\ detectionResults h1 = None /\
     exists message, error h1 = Some message /\ message <> "").
Proof.
  intros Hd h. subst h. split.
  - revert Hd. unfold detectFruits_begin, shouldProcessFrame.
    destruct (detectorRef h0) as [d0|]; [|discriminate].
    destruct (FruitDetectorSetup.isReady d0); [|discriminate].
    destruct (processingInterval <? now - lastProcessingTime h0); [|discriminate].
    done.
  - intros reply h' h1. subst h1.
    destruct (FruitDetector.detectFruits detector reply) as [r|e] eqn:E; simpl.
    + left. repeat split. by eexists.
    + right. repeat split. apply detectFruits_rejection in E as (message & -> & Hne).
      by exists message.
Qed.

Lemma detectFruits_outcome_witness :
  let h := (detectFruits_begin 500 1700000000000
              (initializeDetector (fun _ => None) "key" initial)).1 in
  (status h = DetectionStatus.processing /\ error h = None) /\
  forall (reply : FruitDetector.ApiReply) (h' : State),
    let h1 := detectFruits_settle
                (FruitDetector.detectFruits (FruitDetector.mk true true) reply) h' in
    (status h1 = DetectionStatus.success /\ is_Some (detectionResults h1) /\
     error h1 = error h') \/
    (status h1 = DetectionStatus.error /\ detectionResults h1 = None /\
     exists message, error h1 = Some message /\ message <> "").
Proof.
  apply (detectFruits_outcome 500 1700000000000
           (initializeDetector (fun _ => None) "key" initial) (FruitDetector.mk true true)).
  reflexivity.
Defined.

(** Two calls in flight, as when a frame is captured every second and the
    service takes longer to answer: the first fails after the second has
    begun, the second then succeeds.  The hook ends in [success] with the
    message of the first still in [error]. *)
Example detectFruits_overlapping :
  let h0 := initializeDetector (fun _ => None) "key" initial in
  let (h1, first) := detectFruits_begin 500 1700000000000 h0 in
  let (h2, second) := detectFruits_begin 500 1700000001000 h1 in
  match first, second with
  | Some d1, Some d2 =>
      let h3 := detectFruits_settle (FruitDetector.detectFruits d1 (FruitDetector.ApiText None))
                                    h2 in
      let h4 := detectFruits_settle (FruitDetector.detectFruits d2 FruitContract.sampleReply)
                                    h3 in
      status h3 = DetectionStatus.error /\
      status h4 = DetectionStatus.success /\ is_Some (detectionResults h4) /\
      error h4 = error h3 /\ is_Some (error h4)
  | _, _ => False
  end.
Proof. vm_compute. repeat split; by eexists. Qed.

(** X26. Initialising the detector with an empty key raises nothing and
    reports no error, but the detector it installs is not ready: the next
    [detectFruits] ends in [error], without reaching the service and without
    starting the debounce interval. *)
Theorem initializeDetector_empty_key (sdk : string -> option Thrown) (h : State)
        (processingInterval now : Z) (reply : FruitDetector.ApiReply) :
  let h1 := initializeDetector sdk "" h in
  let h2 := detectFruits processingInterval now reply h1 in
  (status h1 = DetectionStatus.idle /\ error h1 = None /\ isDetectorReady h1 = false) /\
  (detectFruits_begin processingInterval now h1).2 = None /\
  status h2 = DetectionStatus.error /\
  error h2 = Some "Detector not initialized. Please provide an API key." /\
  lastProcessingTime h2 = lastProcessingTime h /\
  detectionResults h2 = detectionResults h.
Proof. repeat split. Qed.

Lemma detectFruits_keeps_detector (processingInterval now : Z)
      (reply : FruitDetector.ApiReply) (h : State) :
  detectorRef (detectFruits processingInterval now reply h) = detectorRef h /\
  isDetectorReady (detectFruits processingInterval now reply h) = isDetectorReady h.
Proof.
  unfold detectFruits, detectFruits_begin, shouldProcessFrame.
  destruct (detectorRef h) as [d|] eqn:Eref; [|done].
  destruct (FruitDetectorSetup.isReady d); [|done].
  destruct (processingInterval <? now - lastProcessingTime h); [|done].
  simpl. by destruct (FruitDetector.detectFruits d reply).
Qed.

Lemma exec_readyIsTrue (c : Command) (h : State) : readyIsTrue h -> readyIsTrue (exec h c).
Proof.
  unfold readyIsTrue. intros Hinv. destruct c as [sdk key|interval now reply|]; cbn [exec].
  - unfold initializeDetector.
    destruct (FruitDetectorSetup.construct sdk (Some key)) as [d|e]; simpl; [eauto|done].
  - destruct (detectFruits_keeps_detector interval now reply h) as [-> ->]. exact Hinv.
  - simpl. exact Hinv.
Qed.

(** X27. Whatever is asked of the hook, when it says [isDetectorReady] the
    detector it holds is ready: a [detectFruits] then never ends in the
    "not initialized" error, it is debounced or reaches the detector. *)
Theorem isDetectorReady_is_true (cs : list Command) (processingInterval now : Z) :
  let h := foldl exec initial cs in
  isDetectorReady h = true ->
  (exists detector, detectorRef h = Some detector /\
                    FruitDetectorSetup.isReady detector = true) /\
  (detectFruits_begin processingInterval now h = (h, None) \/
   is_Some (detectFruits_begin processingInterval now h).2).
Proof.
  intros h Hready.
  assert (Hinv : readyIsTrue h).
  { subst h. clear Hready. generalize initial, (ltac:(done) : readyIsTrue initial).
    induction cs as [|c cs IH]; intros h0 H0; [exact H0|]. simpl.
    apply IH. by apply exec_readyIsTrue. }
  destruct (Hinv Hready) as (d & Href & Hd). split; [by exists d|].
  unfold detectFruits_begin, shouldProcessFrame. rewrite Href, Hd.
  destruct (processingInterval <? now - lastProcessingTime h); [right; by eexists|by left].
Qed.

Lemma isDetectorReady_is_true_witness :
  let h := foldl exec initial
                 [InitializeDetector (fun _ => None) "key";
                  DetectFruits 500 1700000000000 FruitContract.sampleReply;
                  InitializeDetector (fun _ => Some ThrownValue) "other";
                  InitializeDetector (fun _ => None) "key"; ClearResults] in
  (exists detector, detectorRef h = Some detector /\
                    FruitDetectorSetup.isReady detector = true) /\
  (detectFruits_begin 500 1700000001000 h = (h, None) \/
   is_Some (detectFruits_begin 500 1700000001000 h).2).
Proof.
  apply (isDetectorReady_is_true
           [InitializeDetector (fun _ => None) "key";
            DetectFruits 500 1700000000000 FruitContract.sampleReply;
            InitializeDetector (fun _ => Some ThrownValue) "other";
            InitializeDetector (fun _ => None) "key"; ClearResults] 500 1700000001000).
  reflexivity.
Defined.

End UseFruitDetection.

(** ** The double-tap guard *)

(** X28. In a run of touches each at most 300 ms after the one before,
    every touch but the first is prevented, however long the run lasts. *)
Theorem touches_close_together (first lastTouchEnd : Z) (rest : list Z) :
  closeTogether 300 first rest ->
  touches (first :: rest) lastTouchEnd
  = (first - lastTouchEnd <=? 300) :: replicate (length rest) true.
Proof.
  revert first lastTouchEnd. induction rest as [|next rest IH]; intros first last Hclose.
  - reflexivity.
  - destruct Hclose as [[Hlo Hhi] Hrest]. specialize (IH next first Hrest).
    cbn [touches touchend] in *. rewrite IH. cbn [length replicate].
    by rewrite (proj2 (Z.leb_le (next - first) 300)) by lia.
Qed.

Lemma touches_close_together_witness :
  touches [1700000000000; 1700000000250; 1700000000500; 1700000000800] 0
  = (1700000000000 - 0 <=? 300) :: replicate (length [1700000000250; 1700000000500;
                                                       1700000000800]) true.
Proof.
  apply (touches_close_together 1700000000000 0
           [1700000000250; 1700000000500; 1700000000800]).
  simpl. lia.
Defined.

(** ** Downloads *)

Section Downloads.
Import Download.




(** X30. [downloadMediaBlob] makes an object URL of its own for the blob,
    clicks an anchor to it, and releases it: the URL is not revoked when
    [downloadMediaBlob] returns, and is revoked, once, when the timeout has
    run.  The anchor stays in the document, and the collection and the
    media's own [url] are not touched. *)
Theorem downloadMediaBlob_releases_url (media : CapturedMedia.t) (w : World) (p : Page)
        (fuel : nat) :
  createObjectURLError w (CapturedMedia.blob media) = None ->
  appendChildError p = None ->
  timers p = [] ->
  (1 <= fuel)%nat ->
  let url := objectURL (objectURLs w) in
  let link := mkLink (nodes p) url None true None None in
  let b := (downloadMediaBlob media (w, p)).2 in
  let b' := runTimers fuel b in
  (downloadMediaBlob media (w, p)).1 = Resolved tt /\
  revoked b.1 = revoked w /\
  revoked b'.1 = revoked w ++ [url] /\
  capturedMedia b'.1 = capturedMedia w /\
  clicks b'.2 = clicks p ++ [link] /\
  body b'.2 = body p ++ [link] /\
  timers b'.2 = [].
Proof.
  intros Hurl Happend Htimers Hfuel. destruct fuel as [|fuel]; [lia|].
  unfold downloadMediaBlob, createElement, appendChild. cbn [handle].
  rewrite Hurl. cbn. rewrite Happend. cbn. rewrite Htimers. cbn.
  destruct fuel; cbn; repeat split.
Qed.

Lemma downloadMediaBlob_releases_url_witness :
  let p := mkPage 1280 None 0 [] [] [] 0 [] in
  let url := objectURL (objectURLs (worldOn workingEngine)) in
  let link := mkLink (nodes p) url None true None None in
  let b := (downloadMediaBlob mediaA (worldOn workingEngine, p)).2 in
  let b' := runTimers 1 b in
  (downloadMediaBlob mediaA (worldOn workingEngine, p)).1 = Resolved tt /\
  revoked b.1 = revoked (worldOn workingEngine) /\
  revoked b'.1 = revoked (worldOn workingEngine) ++ [url] /\
  capturedMedia b'.1 = capturedMedia (worldOn workingEngine) /\
  clicks b'.2 = clicks p ++ [link] /\
  body b'.2 = body p ++ [link] /\
  timers b'.2 = [].
Proof.
  apply (downloadMediaBlob_releases_url mediaA (worldOn workingEngine)
           (mkPage 1280 None 0 [] [] [] 0 []) 1); [reflexivity|reflexivity|reflexivity|lia].
Defined.

End Downloads.
